(** * Rhythmix: the JioSaavn client of [app.py]

    A shallow embedding of [SaavnApiService] (its two static methods
    [search_songs] and [get_streaming_url]) together with the Python
    string operations the methods rely on, and the properties of the
    catalog client that follow from the code. *)

From Stdlib Require Import String Ascii ZArith NArith Bool Lia List.
From Equations Require Import Equations.
Import ListNotations.

(** ** Python [str]

    A [str] is a sequence of Unicode code points.  Code points are kept
    as [N]; lone surrogates (U+D800..U+DFFF) are legal elements of a
    [str], exactly as in Python, and only the UTF-8 encoder refuses
    them. *)

Module PyStr.

Definition char := N.
Definition pystr := list char.

(** A literal of the source text: every character of the literals of
    [app.py] is ASCII, so its code point is its byte. *)
Definition lit (s : string) : pystr :=
  List.map N_of_ascii (list_ascii_of_string s).
Arguments lit : simpl never.

Fixpoint str_eqb (a b : pystr) : bool :=
  match a, b with
  | [], [] => true
  | x :: a', y :: b' => N.eqb x y && str_eqb a' b'
  | _, _ => false
  end.

(** [s.startswith(p)] *)
Fixpoint starts_with (p s : pystr) : bool :=
  match p, s with
  | [], _ => true
  | x :: p', y :: s' => N.eqb x y && starts_with p' s'
  | _ :: _, [] => false
  end.

(** [sub in s] for two strings: [sub] starts at some position of [s]. *)
Fixpoint contains (sub s : pystr) : bool :=
  starts_with sub s ||
  match s with
  | [] => false
  | _ :: s' => contains sub s'
  end.

(** [s.find(sub)]: the lowest index at which [sub] starts, [-1] when
    there is none. *)
Fixpoint find_from (sub s : pystr) (i : Z) : Z :=
  if starts_with sub s then i
  else match s with
       | [] => (-1)%Z
       | _ :: s' => find_from sub s' (i + 1)%Z
       end.

Definition find (sub s : pystr) : Z := find_from sub s 0%Z.

(** [s[i:]]: a negative start counts from the end, and the start is
    clamped to the bounds of the string. *)
Definition slice_from (s : pystr) (i : Z) : pystr :=
  let n := Z.of_nat (length s) in
  let start := if (i <? 0)%Z then Z.max 0 (i + n) else Z.min i n in
  skipn (Z.to_nat start) s.

(** [s.replace(old, new)] for a non-empty [old = o :: old']: scanning
    from the left, every occurrence of [old] that does not overlap an
    earlier replaced one is replaced by [new]. *)
Equations? replace_ne (o : char) (old' new s : pystr) : pystr
  by wf (length s) lt :=
  replace_ne o old' new [] := [];
  replace_ne o old' new (c :: s') with starts_with (o :: old') (c :: s') := {
    | true => new ++ replace_ne o old' new (skipn (length old') s');
    | false => c :: replace_ne o old' new s' }.
Proof.
  rewrite length_skipn. lia.
Qed.

(** [s.replace(old, new)] with no count: for the empty [old], [new] is
    inserted before every character and at the end. *)
Definition replace (old new s : pystr) : pystr :=
  match old with
  | [] => new ++ flat_map (fun c => c :: new) s
  | o :: old' => replace_ne o old' new s
  end.

(** [s.replace(old, new, 1)]: only the leftmost occurrence is replaced.
    The source never calls it; it is the reading "applied only to the
    first occurrence" of the specification, kept to be compared with
    [replace]. *)
Fixpoint replace_first (old new s : pystr) : pystr :=
  if starts_with old s then new ++ skipn (length old) s
  else match s with
       | [] => []
       | c :: s' => c :: replace_first old new s'
       end.

(** *** [str.encode('utf-8', 'strict')] and [urllib.parse.quote] *)

Definition is_surrogate (c : char) : bool :=
  (N.leb 0xD800 c && N.leb c 0xDFFF)%N.

(** The UTF-8 bytes of one code point; [None] for a surrogate, which the
    strict encoder rejects with [UnicodeEncodeError]. *)
Definition utf8_char (c : char) : option (list N) :=
  (if c <? 0x80 then Some [c]
   else if c <? 0x800 then
     Some [N.lor 0xC0 (N.shiftr c 6); N.lor 0x80 (N.land c 0x3F)]
   else if is_surrogate c then None
   else if c <? 0x10000 then
     Some [N.lor 0xE0 (N.shiftr c 12);
           N.lor 0x80 (N.land (N.shiftr c 6) 0x3F);
           N.lor 0x80 (N.land c 0x3F)]
   else
     Some [N.lor 0xF0 (N.shiftr c 18);
           N.lor 0x80 (N.land (N.shiftr c 12) 0x3F);
           N.lor 0x80 (N.land (N.shiftr c 6) 0x3F);
           N.lor 0x80 (N.land c 0x3F)])%N.

Fixpoint utf8_encode (s : pystr) : option (list N) :=
  match s with
  | [] => Some []
  | c :: s' =>
      match utf8_char c, utf8_encode s' with
      | Some bs, Some rest => Some (bs ++ rest)
      | _, _ => None
      end
  end.

(** [_ALWAYS_SAFE] of [urllib.parse]: ASCII letters, digits and [_.-~];
    [quote] adds its default [safe='/']. *)
Definition always_safe (b : N) : bool :=
  ((N.leb 65 b && N.leb b 90) || (N.leb 97 b && N.leb b 122) ||
   (N.leb 48 b && N.leb b 57) ||
   N.eqb b 95 || N.eqb b 46 || N.eqb b 45 || N.eqb b 126)%N.

Definition quote_safe (b : N) : bool := always_safe b || N.eqb b 47.

(** One upper-case hexadecimal digit, as ['%{:02X}'] prints it. *)
Definition hex_digit (d : N) : char :=
  (if d <? 10 then 48 + d else 55 + d)%N.

Definition quote_byte (b : N) : pystr :=
  if quote_safe b then [b]
  else [37%N; hex_digit (N.shiftr b 4); hex_digit (N.land b 0xF)].

(** [quote_from_bytes(bs, safe='/')] *)
Definition quote_from_bytes (bs : list N) : pystr := flat_map quote_byte bs.

End PyStr.

(** ** Python objects and exceptions

    The values [json.loads] can build, the exceptions the client can
    meet, and the dynamically typed operations [app.py] applies to
    parsed bodies.  Each operation returns [inl e] where Python raises. *)

Module Py.
Import PyStr.

(** Every class below derives from [Exception], so an
    [except Exception] clause catches all of them. *)
Inductive exn : Type :=
| Exception (msg : string)      (* [raise Exception('...')] of the source *)
| TypeError
| AttributeError
| KeyError
| IndexError
| UnicodeEncodeError
| JSONDecodeError
| RequestException.             (* any failure of [requests.get] *)

(** A [float] is kept as the literal it was read from; the client never
    looks inside a number. *)
#[warnings="-register-all"]
Inductive value : Type :=
| VNone
| VBool (b : bool)
| VInt (n : Z)
| VFloat (literal : pystr)
| VStr (s : pystr)
| VList (items : list value)
| VDict (entries : list (pystr * value)).

Definition result (A : Type) : Type := (exn + A)%type.

(** Sequencing of operations that may raise. *)
Definition rbind {A B} (r : result A) (f : A -> result B) : result B :=
  match r with
  | inr a => f a
  | inl e => inl e
  end.

(** Look a string key up in the entries of a [dict]. *)
Fixpoint dict_lookup (k : pystr) (entries : list (pystr * value))
  : option value :=
  match entries with
  | [] => None
  | (k', v) :: rest => if str_eqb k k' then Some v else dict_lookup k rest
  end.

(** [d[k] = v]: the entry is overwritten in place when the key is there,
    appended otherwise. *)
Fixpoint dict_set (k : pystr) (v : value) (entries : list (pystr * value))
  : list (pystr * value) :=
  match entries with
  | [] => [(k, v)]
  | (k', v') :: rest =>
      if str_eqb k k' then (k', v) :: rest else (k', v') :: dict_set k v rest
  end.

Definition is_str_eq (k : pystr) (v : value) : bool :=
  match v with
  | VStr s => str_eqb k s
  | _ => false
  end.

(** [k in v] for a string [k]: key membership for a [dict], element
    membership for a [list], substring test for a [str]; any other JSON
    value is not iterable. *)
Definition py_in (k : pystr) (v : value) : result bool :=
  match v with
  | VDict entries =>
      inr (match dict_lookup k entries with Some _ => true | None => false end)
  | VList items => inr (existsb (is_str_eq k) items)
  | VStr s => inr (contains k s)
  | _ => inl TypeError
  end.

(** [v[k]] for a string [k]. *)
Definition py_getitem (v : value) (k : pystr) : result value :=
  match v with
  | VDict entries =>
      match dict_lookup k entries with
      | Some x => inr x
      | None => inl KeyError
      end
  | _ => inl TypeError
  end.

(** [v[i]] for an integer [i]; a [dict] read from JSON has string keys
    only, so an integer key is never found. *)
Definition py_index (v : value) (i : Z) : result value :=
  match v with
  | VList items =>
      let n := Z.of_nat (length items) in
      let j := (if i <? 0 then i + n else i)%Z in
      if ((0 <=? j) && (j <? n))%Z then
        match nth_error items (Z.to_nat j) with
        | Some x => inr x
        | None => inl IndexError
        end
      else inl IndexError
  | VStr s =>
      let n := Z.of_nat (length s) in
      let j := (if i <? 0 then i + n else i)%Z in
      if ((0 <=? j) && (j <? n))%Z then
        match nth_error s (Z.to_nat j) with
        | Some c => inr (VStr [c])
        | None => inl IndexError
        end
      else inl IndexError
  | VDict _ => inl KeyError
  | _ => inl TypeError
  end.

(** [len(v)] *)
Definition py_len (v : value) : result Z :=
  match v with
  | VList items => inr (Z.of_nat (length items))
  | VStr s => inr (Z.of_nat (length s))
  | VDict entries => inr (Z.of_nat (length entries))
  | _ => inl TypeError
  end.

(** [v.get(k, default)]: only a [dict] has the method. *)
Definition py_get (v : value) (k : pystr) (default : value) : result value :=
  match v with
  | VDict entries =>
      inr (match dict_lookup k entries with Some x => x | None => default end)
  | _ => inl AttributeError
  end.

(** [isinstance(v, str)] *)
Definition isinstance_str (v : value) : bool :=
  match v with
  | VStr _ => true
  | _ => false
  end.

(** [urllib.parse.quote(v)] with its defaults: a [str] is returned as it
    is when empty, and otherwise encoded as UTF-8 (strictly) and quoted
    byte by byte; every other JSON value is refused, since it is not
    [bytes] either. *)
Definition quote (v : value) : result pystr :=
  match v with
  | VStr [] => inr []
  | VStr s =>
      match utf8_encode s with
      | Some bs => inr (quote_from_bytes bs)
      | None => inl UnicodeEncodeError
      end
  | _ => inl TypeError
  end.

(** *** Calls, exceptions and the network

    A computation threads the list of URLs requested so far and either
    raises or returns.  [print] only writes to the standard output and
    is left out. *)

Record response : Type := { status_code : Z; text : pystr }.

Definition M (A : Type) : Type := list pystr -> result A * list pystr.

Definition ret {A} (a : A) : M A := fun calls => (inr a, calls).

Definition raise {A} (e : exn) : M A := fun calls => (inl e, calls).

Definition bind {A B} (m : M A) (f : A -> M B) : M B :=
  fun calls =>
    match m calls with
    | (inr a, calls') => f a calls'
    | (inl e, calls') => (inl e, calls')
    end.

(** [try: m  except Exception as e: h e] *)
Definition try_except {A} (m : M A) (h : exn -> M A) : M A :=
  fun calls =>
    match m calls with
    | (inr a, calls') => (inr a, calls')
    | (inl e, calls') => h e calls'
    end.

Definition lift {A} (r : result A) : M A := fun calls => (r, calls).

(** [requests.get(url, verify=False)] against an upstream that answers
    [requests_get url]; the request is recorded. *)
Definition http_get (requests_get : pystr -> result response) (url : pystr)
  : M response :=
  fun calls => (requests_get url, calls ++ [url]).

(** Run a computation from an empty record of calls. *)
Definition run {A} (m : M A) : result A * list pystr := m [].

End Py.

Declare Scope py_scope.
Delimit Scope py_scope with py.
Notation "x <- m ;; k" := (Py.bind m (fun x => k))
  (at level 61, m at next level, right associativity) : py_scope.
Notation "x <-? r ;; k" := (Py.rbind r (fun x => k))
  (at level 61, r at next level, right associativity) : py_scope.

(** ** [class SaavnApiService] *)

Module SaavnApiService.
Import PyStr Py.
Local Open Scope py_scope.

Definition BASE_URL : pystr := lit "https://www.jiosaavn.com/api.php".
Definition API_PARAMS : pystr :=
  lit "&_format=json&_marker=0&api_version=4&ctx=web6dot0".

(** The final transformation of the authorised URL (line 73). *)
Definition cdn_transform (stream_url : pystr) : pystr :=
  replace (lit "_96.mp4") (lit "_320.mp4")
    (replace (lit "web.saavncdn.com") (lit "aac.saavncdn.com") stream_url).

(** [response.text[response.text.find('{'):]] (line 29). *)
Definition clean_json (response_text : pystr) : pystr :=
  slice_from response_text (find (lit "{") response_text).

(** [data.get('results', [])] (line 31). *)
Definition results_of (data : value) : result value :=
  py_get data (lit "results") (VList []).

(** Lines 48 to 56: what the first [try] does with the parsed details;
    it yields [encrypted_url].  The [and] of line 48 evaluates its
    second operand only when the first is true. *)
Definition encrypted_url_of (details_data : value) : result value :=
  has_songs <-? py_in (lit "songs") details_data ;;
  nonempty <-?
    (if has_songs : bool then
       songs <-? py_getitem details_data (lit "songs") ;;
       n <-? py_len songs ;;
       inr (0 <? n)%Z
     else inr false) ;;
  if nonempty : bool then
    songs <-? py_getitem details_data (lit "songs") ;;
    song_data <-? py_index songs 0 ;;
    more_info <-? py_get song_data (lit "more_info") (VDict []) ;;
    has_url <-? py_in (lit "encrypted_media_url") more_info ;;
    if has_url : bool then py_getitem more_info (lit "encrypted_media_url")
    else inl (Exception "Encrypted media URL not found")
  else inl (Exception "Song data not found").

(** Lines 70 to 75: what the second [try] does with the parsed token
    answer. *)
Definition stream_url_of (token_data : value) : result pystr :=
  auth_url <-? py_get token_data (lit "auth_url") VNone ;;
  if isinstance_str auth_url then
    stream_url <-? py_getitem token_data (lit "auth_url") ;;
    match stream_url with
    | VStr url => inr (cdn_transform url)
    | _ => inl AttributeError       (* only a [str] has this [replace] *)
    end
  else inl (Exception "Failed to get auth_url, token may have expired").

Definition search_url (encoded_query : pystr) : pystr :=
  BASE_URL ++ lit "?__call=search.getResults&q=" ++ encoded_query ++ API_PARAMS.

Definition details_url (song_id : pystr) : pystr :=
  BASE_URL ++ lit "?__call=song.getDetails&pids=" ++ song_id ++ API_PARAMS.

Definition token_url (encoded_encrypted_url : pystr) : pystr :=
  BASE_URL ++ lit "?__call=song.generateAuthToken&url=" ++
  encoded_encrypted_url ++ lit "&bitrate=320" ++ API_PARAMS.

Section Upstream.

(** The two library calls that leave the process or parse its answers
    are parameters: what [requests.get] answers for a URL, and
    [json.loads]. *)
Variable requests_get : pystr -> result response.
Variable json_loads : pystr -> result value.

(** The body of the [try] of [search_songs]. *)
Definition search_attempt (url : pystr) : M value :=
  response <- http_get requests_get url ;;
  if (status_code response =? 200)%Z then
    data <- lift (json_loads (clean_json (text response))) ;;
    lift (results_of data)
  else raise (Exception "Failed to search songs").

Definition search_songs (query : pystr) : M value :=
  encoded_query <- lift (quote (VStr query)) ;;
  let url := search_url encoded_query in
  try_except (search_attempt url) (fun _ => ret (VList [])).

(** The body of the first [try] of [get_streaming_url]. *)
Definition details_attempt (song_id : pystr) : M value :=
  details_response <- http_get requests_get (details_url song_id) ;;
  details_data <- lift (json_loads (text details_response)) ;;
  lift (encrypted_url_of details_data).

(** The body of the second [try]. *)
Definition token_attempt (encoded_encrypted_url : pystr) : M pystr :=
  token_response <- http_get requests_get (token_url encoded_encrypted_url) ;;
  token_data <- lift (json_loads (text token_response)) ;;
  lift (stream_url_of token_data).

Definition get_streaming_url (song_id : pystr) : M pystr :=
  encrypted_url <-
    try_except (details_attempt song_id)
      (fun _ => raise (Exception "Could not get song details")) ;;
  encoded_encrypted_url <- lift (quote encrypted_url) ;;
  try_except (token_attempt encoded_encrypted_url)
    (fun _ => raise (Exception "Could not generate streaming URL")).

End Upstream.

(** The two failures [get_streaming_url] raises itself. *)
Definition DetailsNotFound : exn := Exception "Could not get song details".
Definition TokenExpiredOrInvalid : exn :=
  Exception "Could not generate streaming URL".

End SaavnApiService.

(** ** [json.loads]

    An executable model of the decoder of the standard library with its
    defaults (strict strings, [NaN] and [Infinity] accepted), used to run
    the client on concrete response bodies.  Every rejection is a
    [JSONDecodeError]; the interpreter's resource limits (recursion
    depth, digits of an integer) are not modelled.  The theorems on the
    client do not depend on it: they hold for any decoder. *)

Module PyJson.
Import PyStr Py.
Local Open Scope N_scope.

Definition is_ws (c : char) : bool :=
  (c =? 32) || (c =? 9) || (c =? 10) || (c =? 13).

Fixpoint skip_ws (s : pystr) : pystr :=
  match s with
  | c :: s' => if is_ws c then skip_ws s' else s
  | [] => []
  end.

Definition is_digit (c : char) : bool := (48 <=? c) && (c <=? 57).

(** The longest run of ASCII digits at the front, and what follows. *)
Fixpoint span_digits (s : pystr) : pystr * pystr :=
  match s with
  | c :: s' =>
      if is_digit c then let (ds, r) := span_digits s' in (c :: ds, r)
      else ([], s)
  | [] => ([], [])
  end.

Definition decimal_value (ds : pystr) : Z :=
  fold_left (fun acc d => (10 * acc + Z.of_N (d - 48))%Z) ds 0%Z.

Definition hex_value (c : char) : option N :=
  if is_digit c then Some (c - 48)
  else if (65 <=? c) && (c <=? 70) then Some (c - 55)
  else if (97 <=? c) && (c <=? 102) then Some (c - 87)
  else None.

(** Four hexadecimal digits of a [\uXXXX] escape. *)
Definition hex4 (s : pystr) : option (N * pystr) :=
  match s with
  | a :: b :: c :: d :: r =>
      match hex_value a, hex_value b, hex_value c, hex_value d with
      | Some x, Some y, Some z, Some w =>
          Some (N.lor (N.shiftl x 12) (N.lor (N.shiftl y 8) (N.lor (N.shiftl z 4) w)), r)
      | _, _, _, _ => None
      end
  | _ => None
  end.

Definition backslash (c : char) : option char :=
  if c =? 34 then Some 34          (* a double quote *)
  else if c =? 92 then Some 92     (* a backslash *)
  else if c =? 47 then Some 47     (* a slash *)
  else if c =? 98 then Some 8      (* b: backspace *)
  else if c =? 102 then Some 12    (* f: form feed *)
  else if c =? 110 then Some 10    (* n: line feed *)
  else if c =? 114 then Some 13    (* r: carriage return *)
  else if c =? 116 then Some 9     (* t: tab *)
  else None.

(** [scanstring] from just after the opening quote: the decoded text
    and what follows the closing quote.  A high surrogate escape that is
    followed by a low surrogate escape is joined with it; any other
    surrogate escape stays as it is. *)
Fixpoint scanstring (fuel : nat) (s : pystr) : option (pystr * pystr) :=
  match fuel with
  | O => None
  | S fuel' =>
      match s with
      | [] => None
      | c :: r =>
          if c =? 34 then Some ([], r)
          else if c <? 32 then None
          else if c =? 92 then
            match r with
            | [] => None
            | e :: r1 =>
                if e =? 117 then
                  match hex4 r1 with
                  | None => None
                  | Some (uni, r2) =>
                      let joined :=
                        if (0xD800 <=? uni) && (uni <=? 0xDBFF) then
                          match r2 with
                          | 92 :: 117 :: r3 =>
                              match hex4 r3 with
                              | None => Some None
                              | Some (uni2, r4) =>
                                  if (0xDC00 <=? uni2) && (uni2 <=? 0xDFFF) then
                                    Some (Some
                                      (0x10000 +
                                       N.lor (N.shiftl (uni - 0xD800) 10)
                                             (uni2 - 0xDC00), r4))
                                  else Some (Some (uni, r2))
                              end
                          | _ => Some (Some (uni, r2))
                          end
                        else Some (Some (uni, r2)) in
                      match joined with
                      | Some (Some (ch, rest)) =>
                          match scanstring fuel' rest with
                          | Some (str, r') => Some (ch :: str, r')
                          | None => None
                          end
                      | _ => None
                      end
                  end
                else
                  match backslash e with
                  | None => None
                  | Some ch =>
                      match scanstring fuel' r1 with
                      | Some (str, r') => Some (ch :: str, r')
                      | None => None
                      end
                  end
            end
          else
            match scanstring fuel' r with
            | Some (str, r') => Some (c :: str, r')
            | None => None
            end
      end
  end.

(** A number: an optional minus sign, then [0] or a digit from 1 to 9
    followed by digits, then optionally a dot with at least one digit,
    then optionally [e] or [E], an optional sign and at least one digit.
    A fraction or an exponent that is not complete is not part of the
    number.  The number is an [int] when it has neither. *)
Definition scan_number (s : pystr) : option (value * pystr) :=
  let (sign, s1) :=
    match s with
    | 45 :: r => ([45], r)
    | _ => ([], s)
    end in
  let integer :=
    match s1 with
    | c :: r =>
        if c =? 48 then Some ([c], r)
        else if is_digit c then
          let (ds, r') := span_digits r in Some (c :: ds, r')
        else None
    | [] => None
    end in
  match integer with
  | None => None
  | Some (int_digits, s2) =>
      let (frac, s3) :=
        match s2 with
        | 46 :: d :: r =>
            if is_digit d then
              let (ds, r') := span_digits (d :: r) in (46 :: ds, r')
            else ([], s2)
        | _ => ([], s2)
        end in
      let (exp, s4) :=
        match s3 with
        | e :: r =>
            if (e =? 101) || (e =? 69) then
              let (sg, r1) :=
                match r with
                | g :: r' => if (g =? 45) || (g =? 43) then ([g], r') else ([], r)
                | [] => ([], r)
                end in
              match span_digits r1 with
              | ([], _) => ([], s3)
              | (ds, r2) => (e :: sg ++ ds, r2)
              end
            else ([], s3)
        | [] => ([], s3)
        end in
      match frac, exp with
      | [], [] =>
          let n := decimal_value int_digits in
          Some (VInt (match sign with [] => n | _ => (- n)%Z end), s4)
      | _, _ => Some (VFloat (sign ++ int_digits ++ frac ++ exp), s4)
      end
  end.

(** A constant spelled [word]. *)
Definition scan_word (word : string) (v : value) (s : pystr)
  : option (value * pystr) :=
  if starts_with (lit word) s
  then Some (v, skipn (length (lit word)) s) else None.

(** [scan_once] reads one value; [scan_members] reads the pairs of an
    object from just after the opening quote of a key; [scan_items]
    reads the items of an array from the start of an item. *)
Fixpoint scan_once (fuel : nat) (s : pystr) : option (value * pystr) :=
  match fuel with
  | O => None
  | S fuel' =>
      match s with
      | [] => None
      | c :: r =>
          if c =? 34 then
            match scanstring (length r) r with
            | Some (str, r') => Some (VStr str, r')
            | None => None
            end
          else if c =? 123 then
            match skip_ws r with
            | 125 :: r' => Some (VDict [], r')
            | 34 :: r' => scan_members fuel' [] r'
            | _ => None
            end
          else if c =? 91 then
            match skip_ws r with
            | 93 :: r' => Some (VList [], r')
            | r' => scan_items fuel' [] r'
            end
          else if c =? 110 then scan_word "null" VNone s
          else if c =? 116 then scan_word "true" (VBool true) s
          else if c =? 102 then scan_word "false" (VBool false) s
          else if c =? 78 then scan_word "NaN" (VFloat (lit "NaN")) s
          else if c =? 73 then scan_word "Infinity" (VFloat (lit "Infinity")) s
          else if starts_with (lit "-Infinity") s then
            scan_word "-Infinity" (VFloat (lit "-Infinity")) s
          else scan_number s
      end
  end

with scan_members (fuel : nat) (pairs : list (pystr * value)) (s : pystr)
  : option (value * pystr) :=
  match fuel with
  | O => None
  | S fuel' =>
      match scanstring (length s) s with
      | None => None
      | Some (key, r) =>
          match skip_ws r with
          | 58 :: r1 =>
              match scan_once fuel' (skip_ws r1) with
              | None => None
              | Some (v, r2) =>
                  let pairs' := dict_set key v pairs in
                  match skip_ws r2 with
                  | 125 :: r3 => Some (VDict pairs', r3)
                  | 44 :: r3 =>
                      match skip_ws r3 with
                      | 34 :: r4 => scan_members fuel' pairs' r4
                      | _ => None
                      end
                  | _ => None
                  end
              end
          | _ => None
          end
      end
  end

with scan_items (fuel : nat) (items : list value) (s : pystr)
  : option (value * pystr) :=
  match fuel with
  | O => None
  | S fuel' =>
      match scan_once fuel' s with
      | None => None
      | Some (v, r) =>
          match skip_ws r with
          | 93 :: r1 => Some (VList (rev (v :: items)), r1)
          | 44 :: r1 => scan_items fuel' (v :: items) (skip_ws r1)
          | _ => None
          end
      end
  end.

(** [json.loads(s)] for a [str]: a leading byte order mark is refused,
    blanks around the value are skipped, and nothing may follow it. *)
Definition loads (s : pystr) : result value :=
  if starts_with [0xFEFF] s then inl JSONDecodeError
  else
    match scan_once (S (length s)) (skip_ws s) with
    | None => inl JSONDecodeError
    | Some (v, r) =>
        match skip_ws r with
        | [] => inr v
        | _ :: _ => inl JSONDecodeError
        end
    end.

End PyJson.

(** ** Overlaps between a pattern and a replacement

    Whether replacing can leave or create an occurrence of a pattern [t]
    depends on how [t] can sit across the border of an inserted [new]:
    [t] may start inside [new] and run on after it, or a proper suffix
    of [t] may run into the front of [new]. *)

Module Occurrences.
Import PyStr.

(** One of the two strings is a prefix of the other: placed at the same
    position, they agree as far as both go. *)
Definition compatible (u v : pystr) : bool :=
  starts_with u v || starts_with v u.

(** The non-empty suffixes of a string, longest first. *)
Fixpoint tails (s : pystr) : list pystr :=
  match s with
  | [] => []
  | _ :: s' => s :: tails s'
  end.

(** [t] cannot start at any position of [new]. *)
Definition never_starts_in (t new : pystr) : bool :=
  forallb (fun v => negb (compatible t v)) (tails new).

(** No part of [t] after its first character can start where [new]
    starts. *)
Definition never_runs_into (t new : pystr) : bool :=
  forallb (fun u => negb (compatible u new)) (tails (tl t)).

(** The position [s.find(sub)] returns, as a natural number when there
    is one. *)
Fixpoint find_index (sub s : pystr) : option nat :=
  if starts_with sub s then Some 0
  else match s with
       | [] => None
       | _ :: s' => option_map S (find_index sub s')
       end.

End Occurrences.

(** ** Names used in the statements *)

Module ClientAux.
Import PyStr Py SaavnApiService.

(** The two patterns of [cdn_transform] and what replaces them. *)
Definition web_host : pystr := lit "web.saavncdn.com".
Definition aac_host : pystr := lit "aac.saavncdn.com".
Definition tag_96 : pystr := lit "_96.mp4".
Definition tag_320 : pystr := lit "_320.mp4".

(** The reading of the specification in which each substitution touches
    only the first occurrence of its pattern; to be compared with
    [cdn_transform]. *)
Definition cdn_transform_first_only (stream_url : pystr) : pystr :=
  replace_first tag_96 tag_320 (replace_first web_host aac_host stream_url).

(** A JSON text written with apostrophes where JSON has double quotes. *)
Definition jlit (s : string) : pystr :=
  List.map (fun c => if N.eqb c 39 then 34%N else c) (lit s).

(** An upstream that answers every request with the same status and
    body. *)
Definition always (status : Z) (body : pystr) : pystr -> result response :=
  fun _ => inr {| status_code := status; text := body |}.

(** The same upstream with its status codes rewritten by [st]. *)
Definition with_status (st : pystr -> Z) (requests_get : pystr -> result response)
  : pystr -> result response :=
  fun url =>
    match requests_get url with
    | inr r => inr {| status_code := st url; text := text r |}
    | inl e => inl e
    end.

(** An upstream that answers the requests listed in [table] with status
    200 and the body given there, and fails on every other URL. *)
Fixpoint serve (table : list (pystr * pystr)) (url : pystr) : result response :=
  match table with
  | [] => inl RequestException
  | (u, body) :: rest =>
      if str_eqb url u then inr {| status_code := 200; text := body |}
      else serve rest url
  end.

(** A track, the bodies of a successful exchange for it, and upstreams
    that serve them: [upstream] as they are, [upstream_404] with the
    details under status 404, [upstream_stale] with a token answer
    without [auth_url], [upstream_numeric] with a number where the
    encrypted reference should be. *)
Definition track : pystr := lit "abc".

Definition details_body : pystr :=
  jlit "{'songs':[{'id':'abc','more_info':{'encrypted_media_url':'E1'}}]}".

Definition token_body : pystr :=
  jlit "{'auth_url':'https://web.saavncdn.com/s_96.mp4','status':'success'}".

Definition upstream : pystr -> result response :=
  serve [(details_url track, details_body);
         (token_url (lit "E1"), token_body)].

Definition upstream_404 : pystr -> result response :=
  with_status
    (fun url => if str_eqb url (details_url track) then 404%Z else 200%Z)
    upstream.

Definition upstream_stale : pystr -> result response :=
  serve [(details_url track, details_body);
         (token_url (lit "E1"), jlit "{'status':'failure'}")].

Definition upstream_numeric : pystr -> result response :=
  serve [(details_url track,
          jlit "{'songs':[{'more_info':{'encrypted_media_url':5}}]}")].

(** Details in which the encrypted reference is a string, of the one
    code point U+D800, written as JSON writes it: an escape. *)
Definition surrogate_body : pystr :=
  jlit "{'songs':[{'more_info':{'encrypted_media_url':'\ud800'}}]}".

Definition upstream_surrogate : pystr -> result response :=
  serve [(details_url track, surrogate_body)].

(** A search answer with one result. *)
Definition search_body : pystr := jlit "{'results':[{'id':'abc'}]}".

End ClientAux.

(** ** The Flask routes

    The three views of [app.py].  What Flask itself does is kept to
    what the views use of it: a request is its method and its form and
    query fields; [jsonify] and [render_template] are kept as the
    object they are given.  The text [str(e)] of a caught exception is
    kept as the exception it is the text of. *)

Module App.
Import PyStr Py SaavnApiService.
Local Open Scope py_scope.

(** [c.isspace()] for one character: the white space of Unicode. *)
Definition is_space (c : char) : bool :=
  ((9 <=? c) && (c <=? 13) || (28 <=? c) && (c <=? 32) ||
   (c =? 0x85) || (c =? 0xA0) || (c =? 0x1680) ||
   (0x2000 <=? c) && (c <=? 0x200A) ||
   (c =? 0x2028) || (c =? 0x2029) || (c =? 0x202F) || (c =? 0x205F) ||
   (c =? 0x3000))%N.

(** [s.lstrip()], [s.rstrip()] and [s.strip()] with no argument. *)
Fixpoint lstrip (s : pystr) : pystr :=
  match s with
  | c :: s' => if is_space c then lstrip s' else s
  | [] => []
  end.

Definition rstrip (s : pystr) : pystr := rev (lstrip (rev s)).

Definition strip (s : pystr) : pystr := rstrip (lstrip s).

(** What the views read of [flask.request]. *)
Record request : Type := {
  method : pystr;
  form : list (pystr * pystr);
  args : list (pystr * pystr)
}.

(** [fields.get(key, default)] on the fields of a request: the first
    value sent under the key. *)
Fixpoint multi_get (key : pystr) (fields : list (pystr * pystr))
  (default : pystr) : pystr :=
  match fields with
  | [] => default
  | (k, v) :: rest => if str_eqb key k then v else multi_get key rest default
  end.

(** An entry of an object given to [jsonify]: a value, or the text
    [str(e)] of the exception [e]. *)
Inductive field : Type :=
| Val (v : value)
| StrOf (e : exn).

(** A JSON answer: the object given to [jsonify] and the status. *)
Record json_response : Type := {
  json : list (pystr * field);
  status : Z
}.

Definition jsonify (object : list (pystr * field)) : json_response :=
  {| json := object; status := 200 |}.

(** [return body, code] *)
Definition with_code (r : json_response) (code : Z) : json_response :=
  {| json := json r; status := code |}.

(** A call of [render_template]: the template and its context;
    [error] is [None] or the text of an exception. *)
Record page : Type := {
  template : pystr;
  page_results : value;
  page_error : option exn;
  page_query : pystr
}.

Section Upstream.

Variable requests_get : pystr -> result response.
Variable json_loads : pystr -> result value.

(** [index()], lines 85 to 99. *)
Definition index (req : request) : M page :=
  let results := VList [] in
  let error := None in
  let query := [] in
  if str_eqb (method req) (lit "POST") then
    let query := strip (multi_get (lit "query") (form req) []) in
    match query with
    | _ :: _ =>
        outcome <-
          try_except
            (results <- search_songs requests_get json_loads query ;;
             ret (results, error))
            (fun e => ret (results, Some e)) ;;
        ret {| template := lit "index.html";
               page_results := fst outcome;
               page_error := snd outcome;
               page_query := query |}
    | [] =>
        ret {| template := lit "index.html"; page_results := results;
               page_error := error; page_query := query |}
    end
  else
    ret {| template := lit "index.html"; page_results := results;
           page_error := error; page_query := query |}.

(** [api_search()], lines 102 to 112. *)
Definition api_search (req : request) : M json_response :=
  let query := strip (multi_get (lit "q") (args req) []) in
  match query with
  | [] =>
      ret (with_code
             (jsonify [(lit "error", Val (VStr (lit "Query parameter required")))])
             400)
  | _ :: _ =>
      try_except
        (results <- search_songs requests_get json_loads query ;;
         ret (jsonify [(lit "results", Val results)]))
        (fun e => ret (with_code (jsonify [(lit "error", StrOf e)]) 500))
  end.

(** [api_stream(song_id)], lines 115 to 121. *)
Definition api_stream (song_id : pystr) : M json_response :=
  try_except
    (stream_url <- get_streaming_url requests_get json_loads song_id ;;
     ret (jsonify [(lit "stream_url", Val (VStr stream_url))]))
    (fun e => ret (with_code (jsonify [(lit "error", StrOf e)]) 500)).

End Upstream.

(** The text of the exceptions the source raises itself: [str(e)] is
    the message it was built with. *)
Definition own_message (e : exn) : option pystr :=
  match e with
  | Exception msg => Some (lit msg)
  | _ => None
  end.

End App.

(** ** Checking a property of small numbers by running through them *)

Module Below.

(** [f] holds for every number below [n]. *)
Definition all_below (f : N -> bool) (n : N) : bool :=
  N.recursion true (fun k acc => f k && acc) n.

(** What [quote] lets through: the unreserved characters, the slash,
    and the percent sign of an escape. *)
Definition url_safe (c : PyStr.char) : bool :=
  PyStr.quote_safe c || (c =? 37)%N.

End Below.

(** ** Requests used in the statements *)

Module AppAux.
Import PyStr Py App.

(** A GET of [/api/search] with the parameter [q]. *)
Definition search_request (q : pystr) : request :=
  {| method := lit "GET"; form := []; args := [(lit "q", q)] |}.

(** A POST of the form of the page with the field [query]. *)
Definition post_request (query : pystr) : request :=
  {| method := lit "POST"; form := [(lit "query", query)]; args := [] |}.

(** A GET of the page. *)
Definition page_request : request :=
  {| method := lit "GET"; form := []; args := [] |}.

End AppAux.

(** ** Reading a percent-encoded text back

    Percent-encoding as the specification names it, stated from the
    side of the reader and without reference to [quote] or to the
    tables of [urllib.parse]; to be compared with [Py.quote].  A text
    is read back to bytes (RFC 3986, section 2.1), the bytes to code
    points (UTF-8, RFC 3629).  The reader is strict: it accepts an
    unreserved character or a slash as the byte it is, an escape only
    in upper-case hexadecimal and only for a byte that had to be
    escaped, and only well-formed UTF-8.  A text it accepts is
    therefore the one percent-encoding of what it yields. *)

Module Percent.
Import PyStr.
Local Open Scope N_scope.

(** The unreserved characters of RFC 3986, section 2.3: letters,
    digits, hyphen, full stop, underscore and tilde. *)
Definition is_alpha (c : N) : bool :=
  ((65 <=? c) && (c <=? 90)) || ((97 <=? c) && (c <=? 122)).

Definition is_digit (c : N) : bool := (48 <=? c) && (c <=? 57).

Definition unreserved (c : N) : bool :=
  is_alpha c || is_digit c ||
  (c =? 45) || (c =? 46) || (c =? 95) || (c =? 126).

(** What stands for itself in a query value: an unreserved character
    or the slash. *)
Definition kept (c : N) : bool := unreserved c || (c =? 47).

(** The code points of Unicode: the numbers up to U+10FFFF. *)
Definition code_points (s : pystr) : bool :=
  forallb (fun c => c <? 0x110000) s.

(** The value of an upper-case hexadecimal digit. *)
Definition hex_value_upper (c : char) : option N :=
  if (48 <=? c) && (c <=? 57) then Some (c - 48)
  else if (65 <=? c) && (c <=? 70) then Some (c - 55)
  else None.

(** The bytes a percent-encoded text stands for. *)
Fixpoint percent_decode (s : pystr) : option (list N) :=
  match s with
  | [] => Some []
  | c :: r =>
      if c =? 37 then
        match r with
        | h :: l :: r' =>
            match hex_value_upper h, hex_value_upper l with
            | Some a, Some b =>
                let byte := 16 * a + b in
                if kept byte then None
                else option_map (cons byte) (percent_decode r')
            | _, _ => None
            end
        | _ => None
        end
      else if kept c then option_map (cons c) (percent_decode r)
      else None
  end.

Definition is_continuation (b : N) : bool := (128 <=? b) && (b <? 192).

(** The code points a sequence of bytes stands for in UTF-8: one to
    four bytes each, in the shortest form, no surrogate, nothing above
    U+10FFFF. *)
Fixpoint utf8_decode (bs : list N) : option pystr :=
  match bs with
  | [] => Some []
  | b1 :: r =>
      if b1 <? 128 then option_map (cons b1) (utf8_decode r)
      else if (192 <=? b1) && (b1 <? 224) then
        match r with
        | b2 :: r' =>
            let c := (b1 - 192) * 64 + (b2 - 128) in
            if is_continuation b2 && (128 <=? c)
            then option_map (cons c) (utf8_decode r') else None
        | _ => None
        end
      else if (224 <=? b1) && (b1 <? 240) then
        match r with
        | b2 :: b3 :: r' =>
            let c := (b1 - 224) * 4096 + (b2 - 128) * 64 + (b3 - 128) in
            if is_continuation b2 && is_continuation b3 &&
               (2048 <=? c) && negb (is_surrogate c)
            then option_map (cons c) (utf8_decode r') else None
        | _ => None
        end
      else if (240 <=? b1) && (b1 <? 248) then
        match r with
        | b2 :: b3 :: b4 :: r' =>
            let c := (b1 - 240) * 262144 + (b2 - 128) * 4096 +
                     (b3 - 128) * 64 + (b4 - 128) in
            if is_continuation b2 && is_continuation b3 &&
               is_continuation b4 && (65536 <=? c) && (c <? 0x110000)
            then option_map (cons c) (utf8_decode r') else None
        | _ => None
        end
      else None
  end.

(** The string a percent-encoded text stands for. *)
Definition percent_decoded (enc : pystr) : option pystr :=
  match percent_decode enc with
  | Some bs => utf8_decode bs
  | None => None
  end.

End Percent.

(** * Properties *)

(** ** Strings *)

Module PyStrFacts.
Import PyStr Occurrences.

Lemma starts_with_app (p r : pystr) : starts_with p (p ++ r) = true.
Proof.
  induction p as [|x p IH]; simpl; [reflexivity|].
  now rewrite N.eqb_refl, IH.
Qed.

Lemma starts_with_split (p s : pystr) :
  starts_with p s = true -> s = p ++ skipn (length p) s.
Proof.
  revert s; induction p as [|x p IH]; intros [|y s] H; simpl in *;
    try reflexivity; try discriminate.
  apply andb_prop in H as [Hxy Hp]. apply N.eqb_eq in Hxy. subst y.
  f_equal. now apply IH.
Qed.

Lemma str_eqb_eq (a b : pystr) : str_eqb a b = true <-> a = b.
Proof.
  revert b; induction a as [|x a IH]; intros [|y b]; simpl; split;
    intros H; try reflexivity; try discriminate.
  - apply andb_prop in H as [Hxy Hab]. apply N.eqb_eq in Hxy.
    apply IH in Hab. now subst.
  - injection H as -> ->. rewrite N.eqb_refl. now apply IH.
Qed.

Lemma replace_ne_hit o old' new c s' :
  starts_with (o :: old') (c :: s') = true ->
  replace_ne o old' new (c :: s') =
  new ++ replace_ne o old' new (skipn (length old') s').
Proof. intros H. simp replace_ne. rewrite H. reflexivity. Qed.

Lemma replace_ne_miss o old' new c s' :
  starts_with (o :: old') (c :: s') = false ->
  replace_ne o old' new (c :: s') = c :: replace_ne o old' new s'.
Proof. intros H. simp replace_ne. rewrite H. reflexivity. Qed.

(** Induction along the scan of [replace_ne]: at each position the
    pattern either starts there, and the scan jumps over it, or it does
    not, and the scan moves on by one character. *)
Lemma scan_ind (o : char) (old' : pystr) (P : pystr -> Prop) :
  P [] ->
  (forall c s', starts_with (o :: old') (c :: s') = true ->
                P (skipn (length old') s') -> P (c :: s')) ->
  (forall c s', starts_with (o :: old') (c :: s') = false ->
                P s' -> P (c :: s')) ->
  forall s, P s.
Proof.
  intros Hnil Hhit Hmiss s.
  remember (length s) as n eqn:Hn.
  revert s Hn; induction n as [n IH] using lt_wf_ind; intros s Hn.
  destruct s as [|c s']; [exact Hnil|].
  destruct (starts_with (o :: old') (c :: s')) eqn:Hs.
  - apply Hhit; [exact Hs|].
    apply (IH (length (skipn (length old') s'))); [|reflexivity].
    subst n. rewrite length_skipn. simpl. lia.
  - apply Hmiss; [exact Hs|].
    apply (IH (length s')); [|reflexivity]. subst n. simpl. lia.
Qed.

Lemma contains_cons (t : pystr) c s :
  contains t (c :: s) = starts_with t (c :: s) || contains t s.
Proof. reflexivity. Qed.

Lemma contains_starts (t s : pystr) :
  starts_with t s = true -> contains t s = true.
Proof. intros H. destruct s; simpl in *; now rewrite H. Qed.

(** [t in a ++ b] as soon as [t] starts [b]. *)
Lemma contains_suffix (t a b : pystr) :
  contains t b = true -> contains t (a ++ b) = true.
Proof.
  intros H. induction a as [|x a IH]; [exact H|].
  simpl. rewrite IH. apply orb_true_r.
Qed.

Lemma contains_skipn (t : pystr) n s :
  contains t (skipn n s) = true -> contains t s = true.
Proof.
  intros H. rewrite <- (firstn_skipn n s). now apply contains_suffix.
Qed.

(** Where the pattern is absent, nothing is replaced. *)
Lemma replace_ne_absent o old' new s :
  contains (o :: old') s = false -> replace_ne o old' new s = s.
Proof.
  induction s as [|c s' Hhit IH|c s' Hmiss IH] using (scan_ind o old');
    intros Habs.
  - now simp replace_ne.
  - rewrite contains_cons, Hhit in Habs. discriminate.
  - rewrite contains_cons in Habs. apply orb_false_elim in Habs as [_ Habs].
    rewrite replace_ne_miss by exact Hmiss. now rewrite IH.
Qed.

Theorem replace_absent (old new s : pystr) :
  contains old s = false -> replace old new s = s.
Proof.
  destruct old as [|o old']; intros H.
  - destruct s; discriminate H.
  - now apply replace_ne_absent.
Qed.

Lemma compatible_cons x u y v :
  compatible (x :: u) (y :: v) = N.eqb x y && compatible u v.
Proof.
  unfold compatible; simpl. rewrite (N.eqb_sym y x).
  destruct (N.eqb x y); reflexivity.
Qed.

(** Strings that are not compatible cannot be laid over each other,
    whatever follows the second. *)
Lemma starts_with_compatible (u v r : pystr) :
  starts_with u (v ++ r) = true -> compatible u v = true.
Proof.
  revert v; induction u as [|x u IH]; intros v H; [reflexivity|].
  destruct v as [|y v].
  - reflexivity.
  - simpl in H. apply andb_prop in H as [Hxy H].
    rewrite compatible_cons, Hxy. now apply IH.
Qed.

Lemma forallb_tails_tl (f : pystr -> bool) x u :
  forallb f (tails (x :: u)) = true -> forallb f (tails u) = true.
Proof. simpl. intros H. now apply andb_prop in H as [_ H]. Qed.

(** A string [u] none of whose suffixes can run into [new] starts the
    result of a replacement only if it started the original. *)
Lemma starts_with_replace_inv o old' new u s :
  forallb (fun u' => negb (compatible u' new)) (tails u) = true ->
  starts_with u (replace_ne o old' new s) = true ->
  starts_with u s = true.
Proof.
  revert u.
  induction s as [|c s' Hhit IH|c s' Hmiss IH] using (scan_ind o old');
    intros u Hu H.
  - now simp replace_ne in H.
  - rewrite replace_ne_hit in H by exact Hhit.
    destruct u as [|x u]; [reflexivity|].
    apply starts_with_compatible in H.
    simpl in Hu. rewrite H in Hu. discriminate.
  - rewrite replace_ne_miss in H by exact Hmiss.
    destruct u as [|x u]; [reflexivity|].
    simpl in H |- *. apply andb_prop in H as [Hxc H].
    rewrite Hxc. simpl. apply IH; [|exact H].
    now apply forallb_tails_tl in Hu.
Qed.

(** An occurrence in [q ++ r] starts inside [q] or lies in [r]. *)
Lemma contains_app_cases (t q r : pystr) :
  contains t (q ++ r) = true ->
  (exists v, In v (tails q) /\ starts_with t (v ++ r) = true) \/
  contains t r = true.
Proof.
  induction q as [|x q IH]; intros H; [now right|].
  change ((x :: q) ++ r) with (x :: q ++ r) in H.
  rewrite contains_cons in H. apply orb_prop in H as [H|H].
  - left. exists (x :: q). split; [now left|exact H].
  - destruct (IH H) as [(v & Hv & Hs)|Hr]; [left|now right].
    exists v. split; [now right|exact Hs].
Qed.

(** Every occurrence of [t] in the result of a replacement comes from a
    position of the original where [t] started and the replaced pattern
    did not, provided [t] cannot overlap an inserted [new]. *)
Lemma replace_ne_origin o old' new t s :
  never_starts_in t new = true ->
  never_runs_into t new = true ->
  contains t (replace_ne o old' new s) = true ->
  exists a b, s = a ++ b /\ starts_with t b = true /\
              starts_with (o :: old') b = false.
Proof.
  intros HA HB.
  induction s as [|c s' Hhit IH|c s' Hmiss IH] using (scan_ind o old');
    intros H.
  - simp replace_ne in H. exists [], []. repeat split.
    simpl in H. now rewrite orb_false_r in H.
  - rewrite replace_ne_hit in H by exact Hhit.
    apply contains_app_cases in H as [(v & Hv & Hs)|H].
    + apply starts_with_compatible in Hs.
      unfold never_starts_in in HA. rewrite forallb_forall in HA.
      specialize (HA v Hv). rewrite Hs in HA. discriminate.
    + destruct (IH H) as (a & b & Hab & Ht & Ho).
      exists (c :: firstn (length old') s' ++ a), b. repeat split; trivial.
      simpl. rewrite <- app_assoc, <- Hab. now rewrite firstn_skipn.
  - rewrite replace_ne_miss in H by exact Hmiss.
    rewrite contains_cons in H. apply orb_prop in H as [H|H].
    + exists [], (c :: s'). repeat split; trivial.
      destruct t as [|x t]; [reflexivity|].
      simpl in H |- *. apply andb_prop in H as [Hxc H]. rewrite Hxc. simpl.
      apply (starts_with_replace_inv o old' new); [exact HB|exact H].
    + destruct (IH H) as (a & b & Hab & Ht & Ho).
      exists (c :: a), b. repeat split; trivial. simpl. now rewrite Hab.
Qed.

(** After the replacement the pattern is gone, when it cannot be formed
    again across the border of an inserted [new]. *)
Theorem replace_removes (old new s : pystr) :
  old <> [] ->
  never_starts_in old new = true ->
  never_runs_into old new = true ->
  contains old (replace old new s) = false.
Proof.
  intros Hne HA HB. destruct old as [|o old']; [congruence|].
  destruct (contains (o :: old') (replace (o :: old') new s)) eqn:H;
    [|reflexivity].
  apply replace_ne_origin in H as (a & b & _ & Ht & Ho); trivial.
  congruence.
Qed.

(** A replacement does not bring in a string [t] that was absent, when
    [t] cannot overlap an inserted [new]. *)
Theorem replace_keeps_absent (old new t s : pystr) :
  old <> [] ->
  never_starts_in t new = true ->
  never_runs_into t new = true ->
  contains t s = false ->
  contains t (replace old new s) = false.
Proof.
  intros Hne HA HB Habs. destruct old as [|o old']; [congruence|].
  destruct (contains t (replace (o :: old') new s)) eqn:H; [|reflexivity].
  apply replace_ne_origin in H as (a & b & Hab & Ht & _); trivial.
  apply contains_starts in Ht. subst s.
  now rewrite (contains_suffix _ a _ Ht) in Habs.
Qed.

Lemma skipn_length_app (a b : pystr) : skipn (length a) (a ++ b) = b.
Proof. induction a; simpl; auto. Qed.

Lemma find_from_index (sub s : pystr) (i : Z) :
  find_from sub s i =
  match find_index sub s with
  | Some k => (i + Z.of_nat k)%Z
  | None => (-1)%Z
  end.
Proof.
  revert i; induction s as [|x s IH]; intros i; simpl.
  - destruct (starts_with sub []); simpl; [lia|reflexivity].
  - destruct (starts_with sub (x :: s)); simpl; [lia|].
    rewrite IH. destruct (find_index sub s); simpl; [lia|reflexivity].
Qed.

Lemma find_index_none (sub s : pystr) :
  find_index sub s = None <-> contains sub s = false.
Proof.
  induction s as [|x s IH]; simpl.
  - destruct (starts_with sub []); simpl; split; congruence.
  - destruct (starts_with sub (x :: s)); simpl; [split; congruence|].
    rewrite <- IH. destruct (find_index sub s); simpl; split; congruence.
Qed.

Lemma find_index_bound (sub s : pystr) k :
  find_index sub s = Some k -> k <= length s.
Proof.
  revert k; induction s as [|x s IH]; intros k; simpl.
  - destruct (starts_with sub []); simpl; intros [= <-]; lia.
  - destruct (starts_with sub (x :: s)); simpl; [intros [= <-]; lia|].
    destruct (find_index sub s) as [j|]; simpl; [|discriminate].
    intros [= <-]. specialize (IH j eq_refl). lia.
Qed.

(** [find] answers [-1] exactly when the string is absent. *)
Lemma find_absent (sub s : pystr) :
  contains sub s = false -> find sub s = (-1)%Z.
Proof.
  intros H. apply find_index_none in H.
  unfold find. now rewrite find_from_index, H.
Qed.

(** Characters that differ from [b] in front do not change where the
    first [b] is found, but for the shift. *)
Lemma find_index_skip_prefix (b : char) (pre s : pystr) :
  contains [b] pre = false ->
  find_index [b] (pre ++ s) = option_map (Nat.add (length pre)) (find_index [b] s).
Proof.
  induction pre as [|x pre IH]; intros H.
  - simpl. now destruct (find_index [b] s).
  - rewrite contains_cons in H. apply orb_false_elim in H as [Hx H].
    change ((x :: pre) ++ s) with (x :: pre ++ s).
    unfold find_index; fold find_index.
    replace (starts_with [b] (x :: pre ++ s)) with false
      by (simpl in Hx |- *; now rewrite andb_true_r in * ).
    rewrite (IH H). now destruct (find_index [b] s).
Qed.

(** Replacing consumes the leftmost occurrence and goes on in the same
    way behind it. *)
Lemma replace_ne_leftmost o old' new a b :
  find_index (o :: old') (a ++ (o :: old') ++ b) = Some (length a) ->
  replace_ne o old' new (a ++ (o :: old') ++ b) =
  a ++ new ++ replace_ne o old' new b.
Proof.
  induction a as [|x a IH]; intros Hf.
  - change ([] ++ (o :: old') ++ b) with (o :: old' ++ b).
    rewrite replace_ne_hit by apply (starts_with_app (o :: old')).
    now rewrite skipn_length_app.
  - change ((x :: a) ++ (o :: old') ++ b)
      with (x :: a ++ (o :: old') ++ b) in *.
    unfold find_index in Hf; fold find_index in Hf.
    destruct (starts_with (o :: old') (x :: a ++ (o :: old') ++ b)) eqn:E;
      [discriminate|].
    rewrite replace_ne_miss by exact E. simpl. f_equal. apply IH.
    destruct (find_index (o :: old') (a ++ (o :: old') ++ b));
      simpl in Hf; congruence.
Qed.

Theorem replace_leftmost (old new a b : pystr) :
  old <> [] ->
  find old (a ++ old ++ b) = Z.of_nat (length a) ->
  replace old new (a ++ old ++ b) = a ++ new ++ replace old new b.
Proof.
  intros Hne Hf. destruct old as [|o old']; [congruence|].
  apply replace_ne_leftmost.
  unfold find in Hf. rewrite find_from_index in Hf.
  destruct (find_index (o :: old') (a ++ (o :: old') ++ b)); [|lia].
  f_equal. lia.
Qed.

Lemma replace_first_unfold (old new s : pystr) :
  replace_first old new s =
  if starts_with old s then new ++ skipn (length old) s
  else match s with
       | [] => []
       | c :: s' => c :: replace_first old new s'
       end.
Proof. destruct s; reflexivity. Qed.

(** Replacing the first occurrence only stops behind it. *)
Lemma replace_first_leftmost (old new a b : pystr) :
  find old (a ++ old ++ b) = Z.of_nat (length a) ->
  replace_first old new (a ++ old ++ b) = a ++ new ++ b.
Proof.
  unfold find. rewrite find_from_index.
  induction a as [|x a IH]; intros Hf.
  - simpl. rewrite replace_first_unfold, starts_with_app, skipn_length_app.
    reflexivity.
  - change ((x :: a) ++ old ++ b) with (x :: a ++ old ++ b) in *.
    unfold find_index in Hf; fold find_index in Hf.
    unfold replace_first; fold replace_first.
    destruct (starts_with old (x :: a ++ old ++ b)); [simpl in Hf; lia|].
    simpl. f_equal. apply IH.
    destruct (find_index old (a ++ old ++ b)); simpl in Hf |- *; lia.
Qed.

(** The two readings agree on a string in which the pattern occurs
    once. *)
Lemma replace_single (old new a b : pystr) :
  old <> [] ->
  find old (a ++ old ++ b) = Z.of_nat (length a) ->
  contains old b = false ->
  replace old new (a ++ old ++ b) = replace_first old new (a ++ old ++ b).
Proof.
  intros Hne Hf Hb.
  rewrite (replace_leftmost old new a b Hne Hf).
  rewrite (replace_first_leftmost old new a b Hf).
  now rewrite (replace_absent old new b Hb).
Qed.

Lemma skipn_app_shift (a b : pystr) k :
  skipn (length a + k) (a ++ b) = skipn k b.
Proof. induction a; simpl; auto. Qed.

(** With a negative start [-1] the slice keeps the last character. *)
Lemma slice_from_minus_one (s : pystr) :
  slice_from s (-1) = skipn (length s - 1) s.
Proof.
  unfold slice_from.
  destruct (-1 <? 0)%Z eqn:E; [|discriminate E].
  f_equal. lia.
Qed.

(** Slicing from the first [b]: characters in front that differ from
    [b] make no difference, as long as something follows them. *)
Lemma slice_find_skip_prefix (b : char) (pre s : pystr) :
  contains [b] pre = false -> s <> [] ->
  slice_from (pre ++ s) (find [b] (pre ++ s)) = slice_from s (find [b] s).
Proof.
  intros Hn Hb. unfold find. rewrite !find_from_index.
  rewrite (find_index_skip_prefix _ _ _ Hn).
  destruct (find_index [b] s) as [k|] eqn:Hk; simpl.
  - apply find_index_bound in Hk.
    unfold slice_from. rewrite length_app.
    destruct (Z.ltb_spec (Z.of_nat (length pre + k)) 0); [lia|].
    destruct (Z.ltb_spec (Z.of_nat k) 0); [lia|].
    replace (Z.to_nat (Z.min (Z.of_nat (length pre + k))
                         (Z.of_nat (length pre + length s))))
      with (length pre + k) by lia.
    replace (Z.to_nat (Z.min (Z.of_nat k) (Z.of_nat (length s))))
      with k by lia.
    apply skipn_app_shift.
  - rewrite !slice_from_minus_one. rewrite length_app.
    destruct s as [|c s]; [congruence|]. simpl length.
    replace (length pre + S (length s) - 1)
      with (length pre + length s) by lia.
    replace (S (length s) - 1) with (length s) by lia.
    apply skipn_app_shift.
Qed.

End PyStrFacts.

(** ** The CDN transformation *)

Module TransformFacts.
Import PyStr Occurrences PyStrFacts SaavnApiService ClientAux.

Lemma web_host_removed (s : pystr) :
  contains web_host (replace web_host aac_host s) = false.
Proof. apply replace_removes; [discriminate|reflexivity|reflexivity]. Qed.

Lemma tag_96_removed (s : pystr) :
  contains tag_96 (replace tag_96 tag_320 s) = false.
Proof. apply replace_removes; [discriminate|reflexivity|reflexivity]. Qed.

(** Rewriting the bitrate tag cannot produce the old host name. *)
Lemma web_host_not_created (s : pystr) :
  contains web_host s = false ->
  contains web_host (replace tag_96 tag_320 s) = false.
Proof.
  apply replace_keeps_absent; [discriminate|reflexivity|reflexivity].
Qed.

Lemma cdn_transform_clean (s : pystr) :
  contains web_host (cdn_transform s) = false /\
  contains tag_96 (cdn_transform s) = false.
Proof.
  split.
  - apply web_host_not_created, web_host_removed.
  - apply tag_96_removed.
Qed.

Lemma cdn_transform_absent (s : pystr) :
  contains web_host s = false -> contains tag_96 s = false ->
  cdn_transform s = s.
Proof.
  intros Hw Ht. unfold cdn_transform.
  fold web_host aac_host tag_96 tag_320.
  rewrite (replace_absent web_host aac_host s Hw).
  now apply replace_absent.
Qed.

Lemma cdn_transform_twice (s : pystr) :
  cdn_transform (cdn_transform s) = cdn_transform s.
Proof.
  destruct (cdn_transform_clean s) as [Hw Ht].
  now apply cdn_transform_absent.
Qed.

(** C7: the transformation is a function of the URL alone and is
    idempotent: applied to its own result it changes nothing, for every
    string; it maps the URL of the example to the expected one; and a
    string that contains neither [web.saavncdn.com] nor [_96.mp4] is
    returned as it is. *)
Theorem cdn_transform_idempotent :
  (forall s, cdn_transform (cdn_transform s) = cdn_transform s) /\
  cdn_transform (lit "https://web.saavncdn.com/track_96.mp4?x=1") =
    lit "https://aac.saavncdn.com/track_320.mp4?x=1" /\
  (forall s, contains (lit "web.saavncdn.com") s = false ->
             contains (lit "_96.mp4") s = false ->
             cdn_transform s = s).
Proof.
  split; [exact cdn_transform_twice|].
  split; [vm_compute; reflexivity|].
  exact cdn_transform_absent.
Qed.

Lemma cdn_transform_idempotent_witness :
  cdn_transform (lit "https://cdn.example.org/track_128.mp3") =
  lit "https://cdn.example.org/track_128.mp3".
Proof.
  apply (proj2 (proj2 cdn_transform_idempotent)); reflexivity.
Defined.

(** C1, as the claim states it, fails: with the host name twice in the
    URL, [str.replace] rewrites both occurrences, where a replacement of
    the first occurrence only would leave the second. *)
Lemma cdn_transform_not_first_only :
  cdn_transform (lit "https://web.saavncdn.com/web.saavncdn.com/a_96.mp4") =
    lit "https://aac.saavncdn.com/aac.saavncdn.com/a_320.mp4" /\
  cdn_transform_first_only
    (lit "https://web.saavncdn.com/web.saavncdn.com/a_96.mp4") =
    lit "https://aac.saavncdn.com/web.saavncdn.com/a_320.mp4" /\
  cdn_transform (lit "https://web.saavncdn.com/web.saavncdn.com/a_96.mp4") <>
  cdn_transform_first_only
    (lit "https://web.saavncdn.com/web.saavncdn.com/a_96.mp4").
Proof.
  split; [vm_compute; reflexivity|].
  split; [vm_compute; reflexivity|].
  vm_compute. discriminate.
Qed.

(** C1, amended: the transformation is the host substitution followed by
    the tag substitution; each is a literal replacement of every
    occurrence of its pattern met scanning from the left (the leftmost
    occurrence is replaced and the rest of the string is treated the
    same way, so that no occurrence is left), and a string in which the
    pattern is absent is returned as it is.  The transformation is a
    total function: it raises nothing. *)
Theorem cdn_transform_replaces_all :
  (forall s, cdn_transform s =
             replace (lit "_96.mp4") (lit "_320.mp4")
               (replace (lit "web.saavncdn.com") (lit "aac.saavncdn.com") s)) /\
  (forall old new,
     (old, new) = (lit "web.saavncdn.com", lit "aac.saavncdn.com") \/
     (old, new) = (lit "_96.mp4", lit "_320.mp4") ->
     (forall a b, find old (a ++ old ++ b) = Z.of_nat (length a) ->
                  replace old new (a ++ old ++ b) =
                  a ++ new ++ replace old new b) /\
     (forall s, contains old (replace old new s) = false) /\
     (forall s, contains old s = false -> replace old new s = s)).
Proof.
  split; [reflexivity|].
  intros old new [[= -> ->]|[= -> ->]].
  - split; [|split].
    + intros a b. apply replace_leftmost. discriminate.
    + exact web_host_removed.
    + intros s. apply replace_absent.
  - split; [|split].
    + intros a b. apply replace_leftmost. discriminate.
    + exact tag_96_removed.
    + intros s. apply replace_absent.
Qed.

Lemma cdn_transform_replaces_all_witness :
  replace (lit "_96.mp4") (lit "_320.mp4") (lit "a_96.mp4b_96.mp4") =
  lit "a" ++ lit "_320.mp4" ++ replace (lit "_96.mp4") (lit "_320.mp4") (lit "b_96.mp4").
Proof.
  apply (proj1 (proj2 cdn_transform_replaces_all (lit "_96.mp4") (lit "_320.mp4")
           (or_intror eq_refl)) (lit "a") (lit "b_96.mp4")).
  reflexivity.
Defined.

End TransformFacts.

(** ** The decoder *)

Module PyJsonFacts.
Import PyStr Py PyJson PyStrFacts.

Lemma scan_word_value word v s w r :
  scan_word word v s = Some (w, r) -> w = v.
Proof.
  unfold scan_word. destruct (starts_with _ _); [|discriminate].
  now intros [= <- _].
Qed.

Lemma scan_number_value s v r :
  scan_number s = Some (v, r) ->
  (exists n, v = VInt n) \/ (exists l, v = VFloat l).
Proof.
  unfold scan_number.
  destruct (match s with 45%N :: r0 => _ | _ => _ end) as [sign s1].
  destruct (match s1 with [] => None | c :: r0 => _ end) as [[ds s2]|];
    [|discriminate].
  destruct (match s2 with 46%N :: d :: r0 => _ | _ => _ end) as [frac s3].
  destruct (match s3 with [] => _ | e :: r0 => _ end) as [ex s4].
  destruct frac, ex; intros [= <- _]; eauto.
Qed.

(** The items of an array make a list. *)
Lemma scan_items_value fuel items s v r :
  scan_items fuel items s = Some (v, r) -> exists l, v = VList l.
Proof.
  revert items s; induction fuel as [|fuel IH]; intros items s;
    [discriminate|].
  simpl. destruct (scan_once fuel s) as [[w r0]|]; [|discriminate].
  destruct (skip_ws r0) as [|c r1]; [discriminate|].
  destruct c as [|p]; [discriminate|].
  destruct (N.eq_dec (N.pos p) 93) as [E|E].
  - injection E as ->. intros [= <- _]. eauto.
  - destruct (N.eq_dec (N.pos p) 44) as [E'|E'].
    + injection E' as ->. apply IH.
    + intros H. exfalso. revert H.
      repeat (destruct p as [p|p|]; try discriminate; try congruence).
Qed.

(** Only a text that starts with a brace is read as an object. *)
Lemma scan_once_object fuel s entries r :
  scan_once fuel s = Some (VDict entries, r) ->
  starts_with [123%N] s = true.
Proof.
  destruct fuel as [|fuel]; [discriminate|].
  destruct s as [|c s]; [discriminate|].
  cbn -[N.eqb starts_with scan_word scan_number scanstring skip_ws].
  destruct (c =? 34)%N.
  { destruct (scanstring _ _) as [[str r0]|]; discriminate. }
  destruct (c =? 123)%N eqn:Eb.
  { intros _. apply N.eqb_eq in Eb. now subst c. }
  destruct (c =? 91)%N.
  { intros H.
    assert (exists l, VDict entries = VList l) as [l Hl]; [|discriminate].
    destruct (skip_ws s) as [|d r0].
    - now apply scan_items_value in H.
    - destruct d as [|p]; [now apply scan_items_value in H|].
      destruct (N.eq_dec (N.pos p) 93) as [E|E].
      + injection E as ->. injection H as <- _. eauto.
      + assert (H' : scan_items fuel [] (N.pos p :: r0) =
                     Some (VDict entries, r)).
        { revert H.
          repeat (destruct p as [p|p|]; try congruence; trivial). }
        now apply scan_items_value in H'. }
  destruct (c =? 110)%N; [intros H; now apply scan_word_value in H|].
  destruct (c =? 116)%N; [intros H; now apply scan_word_value in H|].
  destruct (c =? 102)%N; [intros H; now apply scan_word_value in H|].
  destruct (c =? 78)%N; [intros H; now apply scan_word_value in H|].
  destruct (c =? 73)%N; [intros H; now apply scan_word_value in H|].
  destruct (starts_with (lit "-Infinity") (c :: s));
    [intros H; now apply scan_word_value in H|].
  intros H. apply scan_number_value in H as [[n Hn]|[l Hl]]; discriminate.
Qed.

Lemma contains_skip_ws t s :
  contains t (skip_ws s) = true -> contains t s = true.
Proof.
  induction s as [|c s IH]; simpl; [trivial|].
  destruct (is_ws c); [|trivial].
  intros H. rewrite (IH H). apply orb_true_r.
Qed.

(** The text of an object holds a brace. *)
Theorem loads_object_brace (s : pystr) entries :
  loads s = inr (VDict entries) -> contains (lit "{") s = true.
Proof.
  unfold loads. destruct (starts_with _ s); [discriminate|].
  destruct (scan_once _ _) as [[v r]|] eqn:E; [|discriminate].
  destruct (skip_ws r); [|discriminate].
  intros [= ->]. apply scan_once_object in E.
  apply contains_skip_ws. now apply contains_starts.
Qed.

End PyJsonFacts.

(** ** The client *)

Module ClientFacts.
Import PyStr Py Occurrences PyStrFacts SaavnApiService ClientAux TransformFacts.

Lemma utf8_char_some (c : char) :
  is_surrogate c = false -> exists bs, utf8_char c = Some bs.
Proof.
  intros H. unfold utf8_char. rewrite H.
  destruct (c <? 128)%N; [eauto|].
  destruct (c <? 2048)%N; [eauto|].
  destruct (c <? 65536)%N; eauto.
Qed.

(** A string without surrogate code points can be encoded. *)
Lemma utf8_encode_some (s : pystr) :
  existsb is_surrogate s = false -> exists bs, utf8_encode s = Some bs.
Proof.
  induction s as [|c s IH]; simpl; intros H; [eauto|].
  apply orb_false_elim in H as [Hc Hs].
  destruct (utf8_char_some c Hc) as [bs ->].
  destruct (IH Hs) as [rest ->]. eauto.
Qed.

Lemma quote_str_some (s : pystr) :
  existsb is_surrogate s = false -> exists enc, quote (VStr s) = inr enc.
Proof.
  intros H. destruct s as [|c s]; [now exists []|].
  unfold quote. destruct (utf8_encode_some _ H) as [bs ->]. eauto.
Qed.

(** *** The checks on parsed bodies *)

(** The first [try] yields an encrypted reference exactly for a parsed
    body that is an object whose [songs] is a list starting with an object
    whose [more_info] is an object with the key [encrypted_media_url];
    the reference is the value found there, whatever its type. *)
Lemma encrypted_url_of_inv (d e : value) :
  encrypted_url_of d = inr e ->
  exists entries song rest mi,
    d = VDict entries /\
    dict_lookup (lit "songs") entries = Some (VList (VDict song :: rest)) /\
    dict_lookup (lit "more_info") song = Some (VDict mi) /\
    dict_lookup (lit "encrypted_media_url") mi = Some e.
Proof.
  unfold encrypted_url_of.
  destruct d as [| | | |str|items|entries]; simpl; try discriminate.
  - destruct (contains _ str); discriminate.
  - destruct (existsb _ items); discriminate.
  - destruct (dict_lookup (lit "songs") entries) as [songs|] eqn:Hs;
      simpl; [|discriminate].
    destruct songs as [| | | |str|items|ents]; simpl; try discriminate.
    + destruct (0 <? _)%Z; simpl; [|discriminate].
      destruct str; simpl; discriminate.
    + destruct items as [|song rest]; simpl; [discriminate|].
      destruct song as [| | | | | |song]; simpl; try discriminate.
      destruct (dict_lookup (lit "more_info") song) as [mi|] eqn:Hm; simpl.
      * destruct mi as [| | | |ms|l|mi]; simpl; try discriminate.
        -- destruct (contains _ ms); discriminate.
        -- destruct (existsb _ l); discriminate.
        -- destruct (dict_lookup (lit "encrypted_media_url") mi) as [x|] eqn:Hx;
             simpl; [|discriminate].
           intros [= <-]. now exists entries, song, rest, mi.
      * discriminate.
    + destruct (0 <? _)%Z; discriminate.
Qed.

Lemma encrypted_url_of_found entries song rest mi (e : value) :
  dict_lookup (lit "songs") entries = Some (VList (VDict song :: rest)) ->
  dict_lookup (lit "more_info") song = Some (VDict mi) ->
  dict_lookup (lit "encrypted_media_url") mi = Some e ->
  encrypted_url_of (VDict entries) = inr e.
Proof.
  intros Hs Hm He. unfold encrypted_url_of. simpl.
  rewrite Hs. simpl. rewrite Hm. simpl. rewrite He. reflexivity.
Qed.

(** The second [try] yields a URL exactly for a parsed body that is an
    object whose [auth_url] is a string. *)
Lemma stream_url_of_inv (t : value) (u : pystr) :
  stream_url_of t = inr u ->
  exists entries s,
    t = VDict entries /\
    dict_lookup (lit "auth_url") entries = Some (VStr s) /\
    u = cdn_transform s.
Proof.
  unfold stream_url_of.
  destruct t as [| | | | | |entries]; simpl; try discriminate.
  destruct (dict_lookup (lit "auth_url") entries) as [a|] eqn:Ha; simpl;
    [|discriminate].
  destruct a; simpl; try discriminate.
  intros [= <-]. eauto.
Qed.

Lemma stream_url_of_found entries (s : pystr) :
  dict_lookup (lit "auth_url") entries = Some (VStr s) ->
  stream_url_of (VDict entries) = inr (cdn_transform s).
Proof.
  intros Ha. unfold stream_url_of. simpl. rewrite Ha. reflexivity.
Qed.

Section Upstream.

Variable requests_get : pystr -> result response.
Variable json_loads : pystr -> result value.

Local Abbreviation search_songs := (SaavnApiService.search_songs requests_get json_loads).
Local Abbreviation get_streaming_url := (SaavnApiService.get_streaming_url requests_get json_loads).
Local Abbreviation details_attempt := (SaavnApiService.details_attempt requests_get json_loads).
Local Abbreviation token_attempt := (SaavnApiService.token_attempt requests_get json_loads).

(** What [search_songs] returns once the query is encoded: the request
    is made once, and every failure inside the [try] becomes the empty
    list. *)
Lemma search_songs_run (query enc : pystr) :
  quote (VStr query) = inr enc ->
  run (search_songs query) =
  (inr match requests_get (search_url enc) with
       | inl _ => VList []
       | inr response =>
           if (status_code response =? 200)%Z then
             match json_loads (clean_json (text response)) with
             | inr (VDict entries) =>
                 match dict_lookup (lit "results") entries with
                 | Some r => r
                 | None => VList []
                 end
             | _ => VList []
             end
           else VList []
       end,
   [search_url enc]).
Proof.
  intros Hq.
  unfold run, SaavnApiService.search_songs, bind, lift, try_except,
    search_attempt, http_get, bind, lift, raise, ret, results_of.
  rewrite Hq. simpl.
  destruct (requests_get (search_url enc)) as [e|response]; [reflexivity|].
  destruct (status_code response =? 200)%Z; [|reflexivity].
  destruct (json_loads (clean_json (text response))) as [e|data];
    [reflexivity|].
  destruct data; reflexivity.
Qed.


(** A query that cannot be quoted: [quote] raises before the [try], and
    no request is made. *)
Lemma search_songs_unquotable (query : pystr) (e : exn) :
  quote (VStr query) = inl e ->
  run (search_songs query) = (inl e, []).
Proof.
  intros Hq. unfold run, SaavnApiService.search_songs, bind, lift.
  now rewrite Hq.
Qed.

(** The first [try] asks for the details once and checks what it gets. *)
Lemma details_attempt_run (song_id : pystr) :
  run (details_attempt song_id) =
  (r <-? requests_get (details_url song_id) ;;
   d <-? json_loads (text r) ;;
   encrypted_url_of d,
   [details_url song_id])%py.
Proof.
  unfold run, SaavnApiService.details_attempt, bind, lift, http_get, rbind.
  simpl.
  destruct (requests_get (details_url song_id)) as [e|r]; [reflexivity|].
  destruct (json_loads (text r)); reflexivity.
Qed.

(** [get_streaming_url], step by step: a failure of the first [try] is
    reported as [DetailsNotFound] after one request; a reference that
    cannot be quoted raises what [quote] raises, also after one request;
    otherwise the token is asked for, and a failure of the second [try]
    is reported as [TokenExpiredOrInvalid]. *)
Lemma get_streaming_url_run (song_id : pystr) :
  run (get_streaming_url song_id) =
  match fst (run (details_attempt song_id)) with
  | inl _ => (inl DetailsNotFound, [details_url song_id])
  | inr encrypted_url =>
      match quote encrypted_url with
      | inl e => (inl e, [details_url song_id])
      | inr enc =>
          (match (r <-? requests_get (token_url enc) ;;
                  t <-? json_loads (text r) ;;
                  stream_url_of t)%py with
           | inl _ => inl TokenExpiredOrInvalid
           | inr url => inr url
           end,
           [details_url song_id; token_url enc])
      end
  end.
Proof.
  rewrite details_attempt_run.
  unfold run, SaavnApiService.get_streaming_url,
    SaavnApiService.details_attempt, SaavnApiService.token_attempt,
    bind, lift, try_except, http_get, raise, rbind.
  simpl.
  destruct (requests_get (details_url song_id)) as [e|r]; [reflexivity|].
  destruct (json_loads (text r)) as [e|d]; [reflexivity|].
  destruct (encrypted_url_of d) as [e|encrypted_url]; [reflexivity|].
  destruct (quote encrypted_url) as [e|enc]; [reflexivity|].
  destruct (requests_get (token_url enc)) as [e|r']; [reflexivity|].
  destruct (json_loads (text r')) as [e|t]; [reflexivity|].
  destruct (stream_url_of t); reflexivity.
Qed.

(** *** What [search_songs] does with the body *)

Lemma brace_lit : lit "{" = [123%N].
Proof. reflexivity. Qed.

(** Characters before the first brace do not change what is parsed, as
    long as something follows them. *)
Lemma clean_json_noise_prefix (noise body : pystr) :
  contains (lit "{") noise = false -> body <> [] ->
  clean_json (noise ++ body) = clean_json body.
Proof.
  intros Hn Hb. unfold clean_json.
  exact (slice_find_skip_prefix 123%N noise body Hn Hb).
Qed.

(** Without a brace, [find] answers [-1] and the slice keeps the last
    character, which has no brace either. *)
Lemma clean_json_no_brace (body : pystr) :
  contains (lit "{") body = false ->
  find (lit "{") body = (-1)%Z /\
  clean_json body = skipn (length body - 1) body /\
  contains (lit "{") (clean_json body) = false.
Proof.
  intros H. pose proof (find_absent _ _ H) as Hf.
  unfold clean_json. rewrite Hf, slice_from_minus_one.
  repeat split.
  destruct (contains (lit "{") (skipn (length body - 1) body)) eqn:E;
    [|reflexivity].
  apply contains_skipn in E. congruence.
Qed.


(** C3, amended: for every query that can be encoded as UTF-8 (it holds
    no surrogate code point), [search_songs] does not raise and sends
    one request; it returns the empty list when the request fails, when
    the status is not 200, when the body cleaned from its first brace
    does not parse, and when it parses to something that is not an
    object; with status 200 and an object it returns the entry
    [results] of the object, or the empty list when there is none. *)
Theorem search_songs_degrades_to_empty (query : pystr) :
  existsb is_surrogate query = false ->
  exists enc,
    quote (VStr query) = inr enc /\
    (exists results,
       run (search_songs query) = (inr results, [search_url enc])) /\
    (forall e, requests_get (search_url enc) = inl e ->
       run (search_songs query) = (inr (VList []), [search_url enc])) /\
    (forall r, requests_get (search_url enc) = inr r ->
       status_code r <> 200%Z ->
       run (search_songs query) = (inr (VList []), [search_url enc])) /\
    (forall r e, requests_get (search_url enc) = inr r ->
       status_code r = 200%Z ->
       json_loads (clean_json (text r)) = inl e ->
       run (search_songs query) = (inr (VList []), [search_url enc])) /\
    (forall r d, requests_get (search_url enc) = inr r ->
       status_code r = 200%Z ->
       json_loads (clean_json (text r)) = inr d ->
       (forall entries, d <> VDict entries) ->
       run (search_songs query) = (inr (VList []), [search_url enc])) /\
    (forall r entries, requests_get (search_url enc) = inr r ->
       status_code r = 200%Z ->
       json_loads (clean_json (text r)) = inr (VDict entries) ->
       run (search_songs query) =
       (inr match dict_lookup (lit "results") entries with
            | Some found => found
            | None => VList []
            end, [search_url enc])).
Proof.
  intros Hq. destruct (quote_str_some query Hq) as [enc Henc].
  exists enc. split; [exact Henc|].
  rewrite (search_songs_run query enc Henc).
  split; [eauto|].
  split; [intros e ->; reflexivity|].
  split.
  { intros r -> Hst. apply Z.eqb_neq in Hst. now rewrite Hst. }
  split.
  { intros r e -> Hst ->. now rewrite Hst. }
  split.
  { intros r d -> Hst -> Hd. rewrite Hst. simpl.
    destruct d; try reflexivity. now destruct (Hd entries). }
  intros r entries -> Hst ->. now rewrite Hst.
Qed.

(** C9, amended: when the body holds no brace (the empty body
    included), [find] answers [-1], so the slice keeps the last
    character of the body and nothing else; what is left holds no
    brace, so it does not parse to an object: either the parse fails or
    the lookup of [results] does, and the call returns the empty list
    without raising.  The decoder is only asked never to build an
    object from a text without a brace. *)
Theorem search_songs_no_brace (query enc : pystr) (status : Z) (body : pystr) :
  (forall s entries, json_loads s = inr (VDict entries) ->
                     contains (lit "{") s = true) ->
  quote (VStr query) = inr enc ->
  requests_get (search_url enc) = inr {| status_code := status; text := body |} ->
  contains (lit "{") body = false ->
  find (lit "{") body = (-1)%Z /\
  clean_json body = skipn (length body - 1) body /\
  (forall entries, json_loads (clean_json body) <> inr (VDict entries)) /\
  run (search_songs query) = (inr (VList []), [search_url enc]).
Proof.
  intros Hjl Henc Hget Hb.
  destruct (clean_json_no_brace body Hb) as (Hf & Hc & Hn).
  assert (Hobj : forall entries,
             json_loads (clean_json body) <> inr (VDict entries)).
  { intros entries H. apply Hjl in H. congruence. }
  repeat split; trivial.
  rewrite (search_songs_run query enc Henc), Hget. simpl.
  destruct (status =? 200)%Z; [|reflexivity].
  destruct (json_loads (clean_json body)) as [e|d]; [reflexivity|].
  destruct d; try reflexivity. now destruct (Hobj entries).
Qed.


(** *** The two steps of [get_streaming_url] *)

(** The parts of C4 the code does honour: a details body without
    [songs], with an empty [songs], or whose first song has no
    [encrypted_media_url] key under [more_info] (or no [more_info]),
    is reported as [DetailsNotFound], and the token is not asked for. *)
Lemma details_missing_is_reported (song_id : pystr) (r : response) entries :
  requests_get (details_url song_id) = inr r ->
  json_loads (text r) = inr (VDict entries) ->
  dict_lookup (lit "songs") entries = None \/
  dict_lookup (lit "songs") entries = Some (VList []) \/
  (exists song rest,
     dict_lookup (lit "songs") entries = Some (VList (VDict song :: rest)) /\
     (dict_lookup (lit "more_info") song = None \/
      exists mi, dict_lookup (lit "more_info") song = Some (VDict mi) /\
                 dict_lookup (lit "encrypted_media_url") mi = None)) ->
  run (get_streaming_url song_id) =
  (inl DetailsNotFound, [details_url song_id]).
Proof.
  intros Hget Hjl Hshape.
  rewrite get_streaming_url_run, details_attempt_run, Hget. simpl.
  rewrite Hjl. simpl.
  destruct (encrypted_url_of (VDict entries)) as [e|u] eqn:E; [reflexivity|].
  exfalso. apply encrypted_url_of_inv in E
    as (entries' & song & rest & mi & [= <-] & Hs & Hm & Hu).
  destruct Hshape as [H|[H|(song' & rest' & H & Hmi)]]; try congruence.
  rewrite Hs in H. injection H as <- <-.
  destruct Hmi as [Hmi|(mi' & Hmi & Hnone)]; congruence.
Qed.

(** What the code does where C4 asks for [DetailsNotFound]: a reference
    that is present but is not a string passes the first [try], and
    [quote], which stands outside both [try] blocks, raises
    [TypeError]. *)
Lemma non_string_reference_escapes
  (song_id : pystr) (r : response) entries song rest mi (v : value) :
  requests_get (details_url song_id) = inr r ->
  json_loads (text r) = inr (VDict entries) ->
  dict_lookup (lit "songs") entries = Some (VList (VDict song :: rest)) ->
  dict_lookup (lit "more_info") song = Some (VDict mi) ->
  dict_lookup (lit "encrypted_media_url") mi = Some v ->
  isinstance_str v = false ->
  run (get_streaming_url song_id) = (inl TypeError, [details_url song_id]).
Proof.
  intros Hget Hjl Hs Hm Hu Hv.
  rewrite get_streaming_url_run, details_attempt_run, Hget. simpl.
  rewrite Hjl. simpl.
  rewrite (encrypted_url_of_found entries song rest mi v Hs Hm Hu).
  destruct v; try reflexivity. discriminate.
Qed.

(** C2: end to end.  When the details of the track parse to an object
    whose first song has the encrypted reference [E1] under
    [more_info], and the token request, made with [url=E1] ([E1] is its
    own percent-encoding) and [bitrate=320], is answered by an object
    whose [auth_url] is [https://web.saavncdn.com/s_96.mp4], the call
    returns [https://aac.saavncdn.com/s_320.mp4], after these two
    requests. *)
Theorem get_streaming_url_end_to_end
  (song_id : pystr) (details token : response) entries song rest mi answer :
  requests_get
    (lit "https://www.jiosaavn.com/api.php?__call=song.getDetails&pids=" ++
     song_id ++ lit "&_format=json&_marker=0&api_version=4&ctx=web6dot0") =
    inr details ->
  json_loads (text details) = inr (VDict entries) ->
  dict_lookup (lit "songs") entries = Some (VList (VDict song :: rest)) ->
  dict_lookup (lit "more_info") song = Some (VDict mi) ->
  dict_lookup (lit "encrypted_media_url") mi = Some (VStr (lit "E1")) ->
  requests_get
    (lit "https://www.jiosaavn.com/api.php?__call=song.generateAuthToken&url=E1&bitrate=320&_format=json&_marker=0&api_version=4&ctx=web6dot0") =
    inr token ->
  json_loads (text token) = inr (VDict answer) ->
  dict_lookup (lit "auth_url") answer =
    Some (VStr (lit "https://web.saavncdn.com/s_96.mp4")) ->
  quote (VStr (lit "E1")) = inr (lit "E1") /\
  run (get_streaming_url song_id) =
  (inr (lit "https://aac.saavncdn.com/s_320.mp4"),
   [lit "https://www.jiosaavn.com/api.php?__call=song.getDetails&pids=" ++
    song_id ++ lit "&_format=json&_marker=0&api_version=4&ctx=web6dot0";
    lit "https://www.jiosaavn.com/api.php?__call=song.generateAuthToken&url=E1&bitrate=320&_format=json&_marker=0&api_version=4&ctx=web6dot0"]).
Proof.
  intros Hget Hjl Hs Hm Hu Hget' Hjl' Ha. split; [reflexivity|].
  rewrite get_streaming_url_run, details_attempt_run.
  change (details_url song_id) with
    (lit "https://www.jiosaavn.com/api.php?__call=song.getDetails&pids=" ++
     song_id ++ lit "&_format=json&_marker=0&api_version=4&ctx=web6dot0").
  rewrite Hget. simpl. rewrite Hjl. simpl.
  rewrite (encrypted_url_of_found entries song rest mi _ Hs Hm Hu).
  change (quote (VStr (lit "E1"))) with (@inr exn pystr (lit "E1")).
  cbv beta iota.
  change (token_url (lit "E1")) with
    (lit "https://www.jiosaavn.com/api.php?__call=song.generateAuthToken&url=E1&bitrate=320&_format=json&_marker=0&api_version=4&ctx=web6dot0").
  rewrite Hget'. simpl. rewrite Hjl'. simpl.
  rewrite (stream_url_of_found answer _ Ha).
  f_equal.
Qed.


(** C5: when the first step has yielded an encrypted reference and the
    token request is made with its percent-encoding, a token answer that
    does not arrive, that does not parse, or that parses to a value
    without a string under [auth_url] (the key is missing, its value is
    not a string, or the value parsed is not an object) makes the call
    fail with [TokenExpiredOrInvalid]; nothing is returned. *)
Theorem token_failure_is_reported (song_id : pystr) (e : value) (enc : pystr) :
  fst (run (details_attempt song_id)) = inr e ->
  quote e = inr enc ->
  (exists x, requests_get (token_url enc) = inl x) \/
  (exists r x, requests_get (token_url enc) = inr r /\
               json_loads (text r) = inl x) \/
  (exists r t, requests_get (token_url enc) = inr r /\
               json_loads (text r) = inr t /\
               forall s, py_get t (lit "auth_url") VNone <> inr (VStr s)) ->
  run (get_streaming_url song_id) =
  (inl TokenExpiredOrInvalid, [details_url song_id; token_url enc]).
Proof.
  intros Hd Hq Hbad.
  rewrite get_streaming_url_run, Hd, Hq.
  destruct Hbad as [(x & ->)|[(r & x & -> & Hx)|(r & t & -> & Ht & Hno)]].
  - reflexivity.
  - simpl. now rewrite Hx.
  - simpl. rewrite Ht. simpl.
    destruct (stream_url_of t) as [x|u] eqn:E; [reflexivity|].
    apply stream_url_of_inv in E as (entries & str & -> & Ha & _).
    exfalso. apply (Hno str). simpl. now rewrite Ha.
Qed.

(** The requests, with the text [quote] returns in them.
    [search_songs] sends one request, to the base endpoint with
    [__call=search.getResults], [q] set to what [quote] returns for the
    query and the four fixed parameters (and none when [quote] raises).
    [get_streaming_url] first asks for the details, with
    [__call=song.getDetails] and [pids] set to the track id as it is,
    and then, when the first step has yielded a reference [quote]
    accepts, for the token, with [__call=song.generateAuthToken], [url]
    set to what [quote] returns for the reference and [bitrate=320];
    the four fixed parameters end every URL.  The reference is the
    value under [encrypted_media_url] in the [more_info] of the first
    of the [songs] of the details. *)
Lemma requested_urls :
  (forall query,
     snd (run (search_songs query)) =
     match quote (VStr query) with
     | inr enc =>
         [lit "https://www.jiosaavn.com/api.php?__call=search.getResults&q=" ++
          enc ++ lit "&_format=json&_marker=0&api_version=4&ctx=web6dot0"]
     | inl _ => []
     end) /\
  (forall song_id,
     snd (run (get_streaming_url song_id)) =
     (lit "https://www.jiosaavn.com/api.php?__call=song.getDetails&pids=" ++
      song_id ++ lit "&_format=json&_marker=0&api_version=4&ctx=web6dot0") ::
     match fst (run (details_attempt song_id)) with
     | inr encrypted_url =>
         match quote encrypted_url with
         | inr enc =>
             [lit "https://www.jiosaavn.com/api.php?__call=song.generateAuthToken&url=" ++
              enc ++
              lit "&bitrate=320&_format=json&_marker=0&api_version=4&ctx=web6dot0"]
         | inl _ => []
         end
     | inl _ => []
     end) /\
  (forall song_id encrypted_url,
     fst (run (details_attempt song_id)) = inr encrypted_url ->
     exists r entries song rest mi,
       requests_get (details_url song_id) = inr r /\
       json_loads (text r) = inr (VDict entries) /\
       dict_lookup (lit "songs") entries = Some (VList (VDict song :: rest)) /\
       dict_lookup (lit "more_info") song = Some (VDict mi) /\
       dict_lookup (lit "encrypted_media_url") mi = Some encrypted_url).
Proof.
  split; [|split].
  - intros query. destruct (quote (VStr query)) as [e|enc] eqn:Hq.
    + unfold run, SaavnApiService.search_songs, bind, lift.
      now rewrite Hq.
    + now rewrite (search_songs_run query enc Hq).
  - intros song_id. rewrite get_streaming_url_run.
    destruct (fst (run (details_attempt song_id))) as [e|u]; [reflexivity|].
    destruct (quote u) as [e|enc]; reflexivity.
  - intros song_id u. rewrite details_attempt_run. simpl.
    destruct (requests_get (details_url song_id)) as [e|r]; [discriminate|].
    simpl. destruct (json_loads (text r)) as [e|d] eqn:Hd; [discriminate|].
    simpl. intros H.
    apply encrypted_url_of_inv in H
      as (entries & song & rest & mi & -> & Hs & Hm & Hu).
    exists r, entries, song, rest, mi. auto.
Qed.

End Upstream.

(** The status codes play no part in [get_streaming_url].  With the
    status of every answer rewritten at will, the call makes the same
    requests and ends the same way; and a details answer of any status
    whose body parses to a usable reference is followed by the token
    request. *)
Theorem get_streaming_url_ignores_status
  (requests_get : pystr -> result response)
  (json_loads : pystr -> result value) :
  (forall (st : pystr -> Z) song_id,
     run (SaavnApiService.get_streaming_url (with_status st requests_get)
            json_loads song_id) =
     run (SaavnApiService.get_streaming_url requests_get json_loads song_id)) /\
  (forall song_id status body encrypted_url enc,
     requests_get (details_url song_id) =
       inr {| status_code := status; text := body |} ->
     (d <-? json_loads body ;; encrypted_url_of d)%py = inr encrypted_url ->
     quote encrypted_url = inr enc ->
     snd (run (SaavnApiService.get_streaming_url requests_get json_loads
                 song_id)) =
     [details_url song_id; token_url enc]).
Proof.
  split.
  - intros st song_id.
    rewrite !get_streaming_url_run, !details_attempt_run.
    unfold with_status. simpl.
    destruct (requests_get (details_url song_id)) as [e|r]; [reflexivity|].
    simpl. destruct (json_loads (text r)) as [e|d]; [reflexivity|].
    simpl. destruct (encrypted_url_of d) as [e|u]; [reflexivity|].
    destruct (quote u) as [e|enc]; [reflexivity|].
    destruct (requests_get (token_url enc)) as [e|r']; reflexivity.
  - intros song_id status body u enc Hget Hd Hq.
    rewrite get_streaming_url_run, details_attempt_run, Hget. simpl.
    simpl in Hd. rewrite Hd, Hq. reflexivity.
Qed.

(** C6: characters without a brace in front of a body do not change the
    result of [search_songs].  Whatever the decoder, the query and the
    status, the answer to a response whose body is the noise followed by
    [body] is the answer to the response whose body is [body] alone; a
    JSON text is never empty, and this is all that is used of it. *)
Theorem search_songs_noise_prefix
  (json_loads : pystr -> result value) (query : pystr) (status : Z)
  (noise body : pystr) :
  contains (lit "{") noise = false ->
  body <> [] ->
  run (SaavnApiService.search_songs (always status (noise ++ body))
         json_loads query) =
  run (SaavnApiService.search_songs (always status body) json_loads query).
Proof.
  intros Hn Hb.
  destruct (quote (VStr query)) as [e|enc] eqn:Henc.
  - unfold run, SaavnApiService.search_songs, bind, lift.
    now rewrite Henc.
  - rewrite !(search_songs_run _ _ query enc Henc). unfold always. simpl.
    now rewrite (clean_json_noise_prefix noise body Hn Hb).
Qed.

End ClientFacts.

(** ** The properties on concrete exchanges *)

Module Scenarios.
Import PyStr Py SaavnApiService ClientAux ClientFacts.

(** A closed equation between values of the model, by evaluation. *)
Ltac by_computation := vm_compute; reflexivity.

Lemma get_streaming_url_end_to_end_witness :
  run (get_streaming_url upstream PyJson.loads track) =
  (inr (lit "https://aac.saavncdn.com/s_320.mp4"),
   [details_url track; token_url (lit "E1")]).
Proof.
  edestruct (get_streaming_url_end_to_end upstream PyJson.loads track)
    as [_ H]; [by_computation ..|exact H].
Defined.

(** C3 fails as the claim states it, in two ways.  A response with
    status 201, which is a 2xx status, whose body parses to an object
    with one result, is answered by the empty list and not by the
    result; and a query that holds a surrogate code point makes
    [quote], which stands before the [try], raise
    [UnicodeEncodeError]. *)
Lemma search_songs_counterexample :
  (PyJson.loads (clean_json search_body) =
     inr (VDict [(lit "results", VList [VDict [(lit "id", VStr (lit "abc"))]])]) /\
   run (search_songs (always 201 search_body) PyJson.loads (lit "tum hi ho")) =
     (inr (VList []), [search_url (lit "tum%20hi%20ho")]) /\
   VList [] <> VList [VDict [(lit "id", VStr (lit "abc"))]]) /\
  run (search_songs (always 200 search_body) PyJson.loads [0xD800%N]) =
    (inl UnicodeEncodeError, []).
Proof.
  split; [split; [|split]|].
  - vm_compute; reflexivity.
  - vm_compute; reflexivity.
  - discriminate.
  - vm_compute; reflexivity.
Qed.

Lemma search_songs_degrades_to_empty_witness :
  exists enc,
    quote (VStr (lit "tum hi ho")) = inr enc /\
    run (search_songs (always 200 search_body) PyJson.loads (lit "tum hi ho")) =
    (inr (VList [VDict [(lit "id", VStr (lit "abc"))]]), [search_url enc]).
Proof.
  destruct (search_songs_degrades_to_empty (always 200 search_body)
              PyJson.loads (lit "tum hi ho") eq_refl)
    as (enc & Hq & _ & _ & _ & _ & _ & Hfound).
  exists enc. split; [exact Hq|].
  rewrite (Hfound {| status_code := 200; text := search_body |}
             [(lit "results", VList [VDict [(lit "id", VStr (lit "abc"))]])]
             eq_refl eq_refl).
  - reflexivity.
  - vm_compute; reflexivity.
Defined.

(** C9 fails as the claim states it: in the body [7] there is no brace,
    [find] answers [-1] and the slice is the body itself, which parses, to
    the number 7; the empty list comes from the lookup of [results] on
    a number, not from a parse failure. *)
Lemma search_songs_no_brace_counterexample :
  contains (lit "{") (lit "7") = false /\
  find (lit "{") (lit "7") = (-1)%Z /\
  PyJson.loads (clean_json (lit "7")) = inr (VInt 7) /\
  results_of (VInt 7) = inl AttributeError /\
  run (search_songs (always 200 (lit "7")) PyJson.loads (lit "tum hi ho")) =
    (inr (VList []), [search_url (lit "tum%20hi%20ho")]).
Proof. repeat split; vm_compute; reflexivity. Qed.

Lemma search_songs_no_brace_witness :
  find (lit "{") (lit "[1, 2]") = (-1)%Z /\
  clean_json (lit "[1, 2]") = lit "]" /\
  (forall entries,
     PyJson.loads (clean_json (lit "[1, 2]")) <> inr (VDict entries)) /\
  run (search_songs (always 200 (lit "[1, 2]")) PyJson.loads (lit "tum hi ho")) =
    (inr (VList []), [search_url (lit "tum%20hi%20ho")]).
Proof.
  apply (search_songs_no_brace (always 200 (lit "[1, 2]")) PyJson.loads
           (lit "tum hi ho") (lit "tum%20hi%20ho") 200 (lit "[1, 2]")).
  - exact PyJsonFacts.loads_object_brace.
  - vm_compute; reflexivity.
  - reflexivity.
  - vm_compute; reflexivity.
Defined.

Lemma search_songs_noise_prefix_witness :
  run (search_songs (always 200 (lit "while(1); " ++ search_body))
         PyJson.loads (lit "tum hi ho")) =
  run (search_songs (always 200 search_body) PyJson.loads (lit "tum hi ho")).
Proof.
  apply (search_songs_noise_prefix PyJson.loads (lit "tum hi ho") 200
           (lit "while(1); ") search_body).
  - vm_compute; reflexivity.
  - discriminate.
Defined.

(** C4: the code at a details body whose encrypted reference is the
    number 5.  The first [try] accepts it, since it only looks for the
    key; [quote] then raises [TypeError] outside both [try] blocks.
    The call fails, and the token is not asked for, but the failure is
    not [DetailsNotFound]. *)
Theorem get_streaming_url_numeric_reference :
  PyJson.loads (jlit "{'songs':[{'more_info':{'encrypted_media_url':5}}]}") =
    inr (VDict [(lit "songs",
                 VList [VDict [(lit "more_info",
                                VDict [(lit "encrypted_media_url", VInt 5)])]])]) /\
  run (get_streaming_url upstream_numeric PyJson.loads track) =
    (inl TypeError, [details_url track]) /\
  TypeError <> DetailsNotFound.
Proof.
  split; [vm_compute; reflexivity|].
  split; [vm_compute; reflexivity|discriminate].
Qed.

Lemma token_failure_is_reported_witness :
  run (get_streaming_url upstream_stale PyJson.loads track) =
  (inl TokenExpiredOrInvalid, [details_url track; token_url (lit "E1")]).
Proof.
  apply (token_failure_is_reported upstream_stale PyJson.loads track
           (VStr (lit "E1")) (lit "E1")).
  - vm_compute; reflexivity.
  - vm_compute; reflexivity.
  - right. right.
    exists {| status_code := 200; text := jlit "{'status':'failure'}" |},
           (VDict [(lit "status", VStr (lit "failure"))]).
    split; [vm_compute; reflexivity|].
    split; [vm_compute; reflexivity|].
    intros s. vm_compute. discriminate.
Defined.

Lemma get_streaming_url_ignores_status_witness :
  snd (run (get_streaming_url upstream_404 PyJson.loads track)) =
  [details_url track; token_url (lit "E1")].
Proof.
  apply (proj2 (get_streaming_url_ignores_status upstream_404 PyJson.loads)
           track 404%Z details_body (VStr (lit "E1")) (lit "E1")).
  - vm_compute; reflexivity.
  - vm_compute; reflexivity.
  - vm_compute; reflexivity.
Defined.

End Scenarios.

(** ** Trimming *)

Module StripFacts.
Import PyStr App.

Lemma is_space_small (c : char) : is_space c = true -> (c <= 0x3000)%N.
Proof.
  unfold is_space.
  repeat rewrite orb_true_iff. repeat rewrite andb_true_iff.
  repeat rewrite N.leb_le. repeat rewrite N.eqb_eq. lia.
Qed.

(** A surrogate is not white space. *)
Lemma surrogate_not_space (c : char) :
  is_surrogate c = true -> is_space c = false.
Proof.
  intros H. destruct (is_space c) eqn:E; [|reflexivity].
  apply is_space_small in E. unfold is_surrogate in H.
  apply andb_prop in H as [H _]. apply N.leb_le in H. lia.
Qed.

Lemma lstrip_split (s : pystr) :
  exists pre, s = pre ++ lstrip s /\ forallb is_space pre = true.
Proof.
  induction s as [|c s (pre & Hs & Hp)]; [now exists []|].
  simpl. destruct (is_space c) eqn:E.
  - exists (c :: pre). simpl. rewrite E, Hp. now rewrite <- Hs.
  - now exists [].
Qed.

Lemma lstrip_head (s : pystr) c r :
  lstrip s = c :: r -> is_space c = false.
Proof.
  induction s as [|x s IH]; [discriminate|].
  simpl. destruct (is_space x) eqn:E; [exact IH|].
  now intros [= <- _].
Qed.

Lemma lstrip_blank (s : pystr) :
  lstrip s = [] <-> forallb is_space s = true.
Proof.
  induction s as [|c s IH]; simpl; [tauto|].
  destruct (is_space c); simpl; [exact IH|]. split; discriminate.
Qed.

Lemma lstrip_pad (pre s : pystr) :
  forallb is_space pre = true -> lstrip (pre ++ s) = lstrip s.
Proof.
  induction pre as [|c pre IH]; simpl; [reflexivity|].
  intros H. apply andb_prop in H as [-> H]. now apply IH.
Qed.

(** A string that does not start with white space is left as it is. *)
Lemma lstrip_fixed (s : pystr) :
  (forall c r, s = c :: r -> is_space c = false) -> lstrip s = s.
Proof.
  destruct s as [|c r]; [reflexivity|]. intros H. simpl.
  now rewrite (H c r eq_refl).
Qed.

Lemma rstrip_split (s : pystr) :
  exists post, s = rstrip s ++ post /\ forallb is_space post = true.
Proof.
  destruct (lstrip_split (rev s)) as (pre & Hs & Hp).
  exists (rev pre). split.
  - unfold rstrip. rewrite <- rev_app_distr, <- Hs. now rewrite rev_involutive.
  - rewrite forallb_forall in *. intros c Hc. apply Hp.
    apply in_rev. exact Hc.
Qed.

Lemma rstrip_last (s r : pystr) c :
  rstrip s = r ++ [c] -> is_space c = false.
Proof.
  unfold rstrip. intros H.
  apply (f_equal (@rev char)) in H.
  rewrite rev_involutive, rev_app_distr in H. simpl in H.
  now apply lstrip_head in H.
Qed.

Lemma rstrip_blank (s : pystr) :
  rstrip s = [] <-> forallb is_space s = true.
Proof.
  unfold rstrip. split.
  - intros H. apply (f_equal (@rev char)) in H.
    rewrite rev_involutive in H. simpl in H. apply lstrip_blank in H.
    rewrite forallb_forall in *. intros c Hc. apply H.
    apply -> in_rev. exact Hc.
  - intros H.
    assert (Hr : forallb is_space (rev s) = true).
    { rewrite forallb_forall in *. intros c Hc. apply H.
      apply in_rev. exact Hc. }
    apply lstrip_blank in Hr. now rewrite Hr.
Qed.

Lemma rstrip_pad (s post : pystr) :
  forallb is_space post = true -> rstrip (s ++ post) = rstrip s.
Proof.
  intros H. unfold rstrip. rewrite rev_app_distr. f_equal.
  apply lstrip_pad.
  rewrite forallb_forall in *. intros c Hc. apply H.
  apply in_rev. exact Hc.
Qed.

(** A string that does not end with white space is left as it is. *)
Lemma rstrip_fixed (s : pystr) :
  (forall r c, s = r ++ [c] -> is_space c = false) -> rstrip s = s.
Proof.
  intros H. unfold rstrip. rewrite lstrip_fixed; [apply rev_involutive|].
  intros c r Hr. apply (H (rev r) c).
  rewrite <- (rev_involutive s), Hr. reflexivity.
Qed.

(** The trimmed string keeps the first character of the string it is
    cut from on the right. *)
Lemma rstrip_head (s : pystr) c r :
  rstrip s = c :: r -> exists r', s = c :: r'.
Proof.
  intros H. destruct (rstrip_split s) as (post & Hs & _).
  rewrite H in Hs. simpl in Hs. eauto.
Qed.

Lemma strip_head (s : pystr) c r :
  strip s = c :: r -> is_space c = false.
Proof.
  unfold strip. intros H. apply rstrip_head in H as [r' H].
  now apply lstrip_head in H.
Qed.

Lemma strip_last (s r : pystr) c :
  strip s = r ++ [c] -> is_space c = false.
Proof. unfold strip. apply rstrip_last. Qed.

Lemma strip_blank (s : pystr) :
  strip s = [] <-> forallb is_space s = true.
Proof.
  unfold strip. rewrite rstrip_blank.
  destruct (lstrip_split s) as (pre & Hs & Hp).
  split; intros H.
  - rewrite Hs, forallb_app, Hp, H. reflexivity.
  - rewrite Hs, forallb_app in H. now apply andb_prop in H as [_ H].
Qed.

Lemma strip_pad (pre s post : pystr) :
  forallb is_space pre = true -> forallb is_space post = true ->
  strip (pre ++ s ++ post) = strip s.
Proof.
  intros Hpre Hpost. unfold strip. rewrite (lstrip_pad _ _ Hpre).
  destruct (forallb is_space s) eqn:Hs.
  - assert (H1 : forallb is_space (s ++ post) = true)
      by now rewrite forallb_app, Hs, Hpost.
    apply lstrip_blank in H1. apply lstrip_blank in Hs.
    now rewrite H1, Hs.
  - destruct (lstrip_split s) as (p & Hsp & Hp).
    assert (Hl : lstrip (s ++ post) = lstrip s ++ post).
    { rewrite Hsp at 1. rewrite <- app_assoc, (lstrip_pad _ _ Hp).
      destruct (lstrip s) as [|c r] eqn:E.
      - apply lstrip_blank in E. congruence.
      - simpl. now rewrite (lstrip_head s c r E). }
    rewrite Hl. now apply rstrip_pad.
Qed.

Lemma strip_fixed (s : pystr) :
  (forall c r, s = c :: r -> is_space c = false) ->
  (forall r c, s = r ++ [c] -> is_space c = false) ->
  strip s = s.
Proof.
  intros Hh Hl. unfold strip. rewrite (lstrip_fixed s Hh).
  now apply rstrip_fixed.
Qed.

Lemma existsb_lstrip (f : char -> bool) (s : pystr) :
  (forall c, f c = true -> is_space c = false) ->
  existsb f (lstrip s) = existsb f s.
Proof.
  intros Hf. induction s as [|c s IH]; [reflexivity|].
  simpl. destruct (is_space c) eqn:E; [|reflexivity].
  rewrite IH. destruct (f c) eqn:F; [|reflexivity].
  apply Hf in F. congruence.
Qed.

Lemma existsb_rev (f : char -> bool) (s : pystr) :
  existsb f (rev s) = existsb f s.
Proof.
  induction s as [|c s IH]; [reflexivity|].
  simpl. rewrite existsb_app, IH. simpl.
  rewrite orb_false_r. apply orb_comm.
Qed.

(** Trimming keeps every character that is not white space, so it
    keeps the surrogates. *)
Lemma existsb_surrogate_strip (s : pystr) :
  existsb is_surrogate (strip s) = existsb is_surrogate s.
Proof.
  unfold strip, rstrip.
  rewrite existsb_rev, existsb_lstrip, existsb_rev, existsb_lstrip;
    auto using surrogate_not_space.
Qed.

End StripFacts.

(** ** Percent-encoding *)

Module QuoteFacts.
Import PyStr Py Below.

Lemma all_below_spec (f : N -> bool) (n : N) :
  all_below f n = true -> forall y, (y < n)%N -> f y = true.
Proof.
  unfold all_below. induction n as [|n IH] using N.peano_ind; [lia|].
  rewrite N.recursion_succ; [|reflexivity|now intros ? ? -> ? ? ->].
  intros H y Hy. apply andb_prop in H as [Hn H].
  destruct (N.eq_dec y n) as [->|Hne]; [exact Hn|].
  apply IH; [exact H|lia].
Qed.

Lemma utf8_char_none (c : char) :
  utf8_char c = None <-> is_surrogate c = true.
Proof.
  unfold utf8_char. split.
  - destruct (c <? 128)%N; [discriminate|].
    destruct (c <? 2048)%N; [discriminate|].
    destruct (is_surrogate c); [reflexivity|].
    destruct (c <? 65536)%N; discriminate.
  - intros H. rewrite H. unfold is_surrogate in H.
    apply andb_prop in H as [H _]. apply N.leb_le in H.
    destruct (N.ltb_spec c 128); [lia|].
    destruct (N.ltb_spec c 2048); [lia|]. reflexivity.
Qed.

(** The strict encoder fails exactly on a string with a surrogate. *)
Lemma utf8_encode_none (s : pystr) :
  utf8_encode s = None <-> existsb is_surrogate s = true.
Proof.
  induction s as [|c s IH]; simpl; [split; discriminate|].
  rewrite orb_true_iff, <- IH, <- utf8_char_none.
  destruct (utf8_char c), (utf8_encode s); split; intros H;
    try discriminate; try reflexivity; auto.
  destruct H; discriminate.
Qed.

Lemma quote_str_raises (s : pystr) (e : exn) :
  quote (VStr s) = inl e <->
  e = UnicodeEncodeError /\ existsb is_surrogate s = true.
Proof.
  destruct s as [|c s]; [simpl; split; [discriminate|intros [_ H]; discriminate]|].
  unfold quote. rewrite <- utf8_encode_none.
  destruct (utf8_encode (c :: s)); split.
  - discriminate.
  - intros [_ H]. discriminate.
  - intros [= <-]. auto.
  - intros [-> _]. reflexivity.
Qed.

(** [quote] raises [TypeError] on what is not a string, and nothing
    else but [UnicodeEncodeError]. *)
Lemma quote_raises (v : value) (e : exn) :
  quote v = inl e ->
  (e = TypeError /\ isinstance_str v = false) \/
  (e = UnicodeEncodeError /\
   exists s, v = VStr s /\ existsb is_surrogate s = true).
Proof.
  destruct v; simpl; try (intros [= <-]; now left).
  intros H. right. apply quote_str_raises in H as [-> H]. eauto.
Qed.

Lemma shiftr_below (c : N) (k bound : N) :
  (c < bound * 2 ^ k)%N -> (N.shiftr c k < bound)%N.
Proof.
  intros H. rewrite N.shiftr_div_pow2.
  apply N.Div0.div_lt_upper_bound. lia.
Qed.

Lemma land_63_below (x : N) : (N.land x 63 < 64)%N.
Proof.
  change 63%N with (N.ones 6). rewrite N.land_ones.
  apply N.mod_lt. discriminate.
Qed.

Lemma continuation_byte (x : N) : (N.lor 128 (N.land x 63) < 256)%N.
Proof.
  apply N.ltb_lt.
  apply (all_below_spec (fun y => N.lor 128 y <? 256)%N 64);
    [vm_compute; reflexivity|apply land_63_below].
Qed.

Lemma lead_byte (tag bound x : N) :
  all_below (fun y => N.lor tag y <? 256)%N bound = true ->
  (x < bound)%N -> (N.lor tag x < 256)%N.
Proof.
  intros H Hx. apply N.ltb_lt.
  now apply (all_below_spec (fun y => N.lor tag y <? 256)%N bound).
Qed.

Lemma bytes_cons (x : N) (l : list N) :
  (x < 256)%N -> forallb (fun b => b <? 256)%N l = true ->
  forallb (fun b => b <? 256)%N (x :: l) = true.
Proof.
  intros Hx Hl. change (((x <? 256)%N && forallb (fun b => b <? 256)%N l) = true).
  rewrite Hl. now apply N.ltb_lt in Hx as ->.
Qed.

(** The encoding of a code point is made of bytes. *)
Lemma utf8_char_bytes (c : char) bs :
  (c < 0x110000)%N -> utf8_char c = Some bs ->
  forallb (fun b => b <? 256)%N bs = true.
Proof.
  intros Hc. unfold utf8_char.
  destruct (N.ltb_spec c 128);
    [|destruct (N.ltb_spec c 2048);
      [|destruct (is_surrogate c); [discriminate|];
        destruct (N.ltb_spec c 65536)]];
    intros [= <-];
    repeat (apply bytes_cons; [try apply continuation_byte|]);
    try reflexivity.
  - lia.
  - apply (lead_byte 192 32 (N.shiftr c 6)); [reflexivity|].
    apply shiftr_below. simpl. lia.
  - apply (lead_byte 224 16 (N.shiftr c 12)); [reflexivity|].
    apply shiftr_below. simpl. lia.
  - apply (lead_byte 240 5 (N.shiftr c 18)); [reflexivity|].
    apply shiftr_below. simpl. lia.
Qed.

Lemma utf8_encode_bytes (s : pystr) bs :
  forallb (fun c => c <? 0x110000)%N s = true ->
  utf8_encode s = Some bs ->
  forallb (fun b => b <? 256)%N bs = true.
Proof.
  revert bs; induction s as [|c s IH]; intros bs Hs; simpl.
  - now intros [= <-].
  - simpl in Hs. apply andb_prop in Hs as [Hc Hs]. apply N.ltb_lt in Hc.
    destruct (utf8_char c) as [b1|] eqn:E1; [|discriminate].
    destruct (utf8_encode s) as [b2|]; [|discriminate].
    intros [= <-]. rewrite forallb_app, (utf8_char_bytes c b1 Hc E1).
    now apply IH.
Qed.

Lemma quote_byte_safe (b : N) :
  (b < 256)%N -> forallb url_safe (quote_byte b) = true.
Proof.
  apply (all_below_spec (fun b => forallb url_safe (quote_byte b)) 256).
  vm_compute; reflexivity.
Qed.

Lemma quote_from_bytes_safe (bs : list N) :
  forallb (fun b => b <? 256)%N bs = true ->
  forallb url_safe (quote_from_bytes bs) = true.
Proof.
  unfold quote_from_bytes. induction bs as [|b bs IH]; [reflexivity|].
  simpl. intros H. apply andb_prop in H as [Hb H]. apply N.ltb_lt in Hb.
  now rewrite forallb_app, (quote_byte_safe b Hb), IH.
Qed.

Lemma quote_str_safe (s enc : pystr) :
  forallb (fun c => c <? 0x110000)%N s = true ->
  quote (VStr s) = inr enc ->
  forallb url_safe enc = true.
Proof.
  intros Hs. destruct s as [|c s]; [now intros [= <-]|].
  unfold quote. destruct (utf8_encode (c :: s)) as [bs|] eqn:E; [|discriminate].
  intros [= <-]. apply quote_from_bytes_safe.
  now apply (utf8_encode_bytes (c :: s)).
Qed.

Lemma quote_safe_ascii (c : char) : quote_safe c = true -> (c < 128)%N.
Proof.
  unfold quote_safe, always_safe.
  repeat rewrite orb_true_iff. repeat rewrite andb_true_iff.
  repeat rewrite N.leb_le. repeat rewrite N.eqb_eq. lia.
Qed.

Lemma utf8_encode_safe (s : pystr) :
  forallb quote_safe s = true -> utf8_encode s = Some s.
Proof.
  induction s as [|c s IH]; [reflexivity|].
  simpl. intros H. apply andb_prop in H as [Hc Hs].
  apply quote_safe_ascii in Hc. unfold utf8_char.
  destruct (N.ltb_spec c 128); [|lia]. now rewrite (IH Hs).
Qed.

Lemma quote_from_bytes_id (s : pystr) :
  forallb quote_safe s = true -> quote_from_bytes s = s.
Proof.
  unfold quote_from_bytes. induction s as [|c s IH]; [reflexivity|].
  intros H. simpl in H. apply andb_prop in H as [Hc Hs].
  change (flat_map quote_byte (c :: s))
    with (quote_byte c ++ flat_map quote_byte s).
  unfold quote_byte at 1. rewrite Hc, (IH Hs). reflexivity.
Qed.

End QuoteFacts.

(** ** More on the transformation and on the two operations *)

Module MoreFacts.
Import PyStr Py Occurrences PyStrFacts SaavnApiService ClientAux
  TransformFacts ClientFacts Below QuoteFacts.

(** *** Lengths *)

Lemma starts_with_length (p s : pystr) :
  starts_with p s = true -> length p <= length s.
Proof.
  revert s; induction p as [|x p IH]; intros [|y s] H; simpl in *;
    try lia; try discriminate.
  apply andb_prop in H as [_ H]. apply IH in H. lia.
Qed.

(** A replacement by a text that is not shorter than the pattern does
    not shorten the string, and one by a text of the same length keeps
    the length. *)
Lemma replace_ne_length (o : char) (old' new s : pystr) :
  (S (length old') <= length new ->
   length s <= length (replace_ne o old' new s)) /\
  (length new = S (length old') ->
   length (replace_ne o old' new s) = length s).
Proof.
  induction s as [|c s' Hhit IH|c s' Hmiss IH] using (scan_ind o old').
  - simp replace_ne. split; intros _; reflexivity.
  - rewrite replace_ne_hit by exact Hhit. rewrite length_app.
    apply starts_with_length in Hhit. simpl in Hhit.
    rewrite length_skipn in IH. simpl length.
    split; intros H;
      [pose proof (proj1 IH H)|pose proof (proj2 IH H)]; lia.
  - rewrite replace_ne_miss by exact Hmiss. simpl.
    split; intros H;
      [pose proof (proj1 IH H)|pose proof (proj2 IH H)]; lia.
Qed.

(** X11: the transformation never shortens a URL, and the host
    substitution alone keeps its length: the two host names have the
    same length, and the new tag is one character longer than the old
    one. *)
Theorem cdn_transform_length (s : pystr) :
  length (replace (lit "web.saavncdn.com") (lit "aac.saavncdn.com") s) =
    length s /\
  length s <= length (cdn_transform s).
Proof.
  assert (Hhost : length (replace (lit "web.saavncdn.com")
                            (lit "aac.saavncdn.com") s) = length s).
  { change (lit "web.saavncdn.com") with (119%N :: tl (lit "web.saavncdn.com")).
    apply (proj2 (replace_ne_length _ _ _ s)). reflexivity. }
  split; [exact Hhost|].
  unfold cdn_transform. rewrite <- Hhost at 1.
  change (lit "_96.mp4") with (95%N :: tl (lit "_96.mp4")).
  apply (proj1 (replace_ne_length _ _ _ _)). vm_compute. lia.
Qed.

(** X10: the transformation leaves a URL as it is exactly when the URL
    holds neither [web.saavncdn.com] nor [_96.mp4]; any URL that holds
    one of them is changed. *)
Theorem cdn_transform_fixed_iff (s : pystr) :
  cdn_transform s = s <->
  contains (lit "web.saavncdn.com") s = false /\
  contains (lit "_96.mp4") s = false.
Proof.
  split.
  - intros H. rewrite <- H. apply cdn_transform_clean.
  - intros [Hw Ht]. now apply cdn_transform_absent.
Qed.

(** *** The cleaned body *)

Lemma find_index_char (b : char) (s : pystr) k :
  find_index [b] s = Some k ->
  exists pre rest,
    s = pre ++ b :: rest /\ length pre = k /\ contains [b] pre = false.
Proof.
  revert k; induction s as [|x s IH]; intros k; [discriminate|].
  unfold find_index; fold find_index.
  destruct (starts_with [b] (x :: s)) eqn:E.
  - intros [= <-]. simpl in E. rewrite andb_true_r in E.
    apply N.eqb_eq in E. subst x. now exists [], s.
  - destruct (find_index [b] s) as [j|]; [|discriminate].
    intros [= <-]. destruct (IH j eq_refl) as (pre & rest & -> & Hl & Hc).
    exists (x :: pre), rest. repeat split; [simpl; now rewrite Hl|].
    rewrite contains_cons, Hc, orb_false_r.
    simpl in E |- *. now rewrite andb_true_r in *.
Qed.

Lemma slice_from_length_app (pre rest : pystr) :
  slice_from (pre ++ rest) (Z.of_nat (length pre)) = rest.
Proof.
  unfold slice_from. rewrite length_app.
  destruct (Z.ltb_spec (Z.of_nat (length pre)) 0); [lia|].
  replace (Z.to_nat (Z.min (Z.of_nat (length pre))
                       (Z.of_nat (length pre + length rest))))
    with (length pre) by lia.
  apply skipn_length_app.
Qed.

(** A body with a brace is cut just before its first brace. *)
Lemma clean_json_with_brace (body : pystr) :
  contains (lit "{") body = true ->
  exists noise rest,
    body = noise ++ clean_json body /\
    contains (lit "{") noise = false /\
    clean_json body = 123%N :: rest.
Proof.
  intros H. unfold clean_json, find. rewrite find_from_index.
  change (lit "{") with [123%N] in *.
  destruct (find_index [123%N] body) as [k|] eqn:E.
  - apply find_index_char in E as (pre & rest & -> & <- & Hc).
    exists pre, rest. simpl (0 + _)%Z.
    rewrite slice_from_length_app. auto.
  - apply find_index_none in E. congruence.
Qed.

(** X4: [clean_json] keeps the body from its first brace on: what it
    drops holds no brace, and what it keeps starts with the brace.
    Cleaning twice is cleaning once, brace or not. *)
Theorem clean_json_from_first_brace :
  (forall body,
     contains (lit "{") body = true ->
     exists noise,
       body = noise ++ clean_json body /\
       contains (lit "{") noise = false /\
       starts_with (lit "{") (clean_json body) = true) /\
  (forall body, clean_json (clean_json body) = clean_json body).
Proof.
  split.
  - intros body H.
    destruct (clean_json_with_brace body H) as (noise & rest & Hb & Hn & Hc).
    exists noise. repeat split; trivial. now rewrite Hc.
  - intros body. destruct (contains (lit "{") body) eqn:H.
    + destruct (clean_json_with_brace body H) as (noise & rest & _ & _ & Hc).
      rewrite Hc. unfold clean_json at 1.
      change (find (lit "{") (123%N :: rest)) with 0%Z.
      reflexivity.
    + destruct (clean_json_no_brace body H) as (_ & Hc & Hn).
      destruct (clean_json_no_brace _ Hn) as (_ & Hc' & _).
      rewrite Hc'.
      assert (Hl : length (clean_json body) <= 1)
        by (rewrite Hc, length_skipn; lia).
      destruct (clean_json body) as [|c [|d r]]; simpl in *;
        try reflexivity; lia.
Qed.

(** *** The two operations *)

Lemma url_safe_delimiters (c : char) :
  url_safe c = true ->
  c <> 38%N /\ c <> 61%N /\ c <> 63%N /\ c <> 35%N /\ c <> 32%N.
Proof.
  intros H. repeat split; intros ->; discriminate H.
Qed.

Section Upstream.

Variable requests_get : pystr -> result response.
Variable json_loads : pystr -> result value.

Local Abbreviation search_songs :=
  (SaavnApiService.search_songs requests_get json_loads).
Local Abbreviation get_streaming_url :=
  (SaavnApiService.get_streaming_url requests_get json_loads).
Local Abbreviation details_attempt :=
  (SaavnApiService.details_attempt requests_get json_loads).

(** X1: [search_songs] raises exactly when the query holds a surrogate
    code point; what it raises then is the [UnicodeEncodeError] of
    [quote], and no request has been made.  No failure of the network
    or of the decoder leaves it. *)
Theorem search_songs_raises_iff (query : pystr) :
  (forall e, fst (run (search_songs query)) = inl e ->
             e = UnicodeEncodeError /\
             existsb is_surrogate query = true /\
             snd (run (search_songs query)) = []) /\
  (existsb is_surrogate query = true ->
   run (search_songs query) = (inl UnicodeEncodeError, [])).
Proof.
  split.
  - intros e. destruct (quote (VStr query)) as [x|enc] eqn:Hq.
    + rewrite (search_songs_unquotable _ _ query x Hq). simpl.
      intros [= <-]. apply quote_str_raises in Hq as [-> Hs]. auto.
    + rewrite (search_songs_run _ _ query enc Hq). discriminate.
  - intros Hs. apply search_songs_unquotable.
    apply quote_str_raises. auto.
Qed.

(** X2: the query cannot alter the request.  For a query of code points
    without surrogates, the text put after [q=] is made of unreserved
    characters, slashes and percent escapes only; neither an ampersand,
    an equals sign, a question mark, a hash nor a blank reaches the
    URL through it. *)
Theorem search_url_query_is_safe (query : pystr) :
  forallb (fun c => c <? 0x110000)%N query = true ->
  existsb is_surrogate query = false ->
  exists enc,
    snd (run (search_songs query)) =
      [lit "https://www.jiosaavn.com/api.php?__call=search.getResults&q=" ++
       enc ++ lit "&_format=json&_marker=0&api_version=4&ctx=web6dot0"] /\
    forallb url_safe enc = true /\
    (forall c, In c enc ->
       c <> 38%N /\ c <> 61%N /\ c <> 63%N /\ c <> 35%N /\ c <> 32%N).
Proof.
  intros Hv Hs. destruct (quote_str_some query Hs) as [enc Hq].
  exists enc. rewrite (search_songs_run _ _ query enc Hq).
  pose proof (quote_str_safe query enc Hv Hq) as Hsafe.
  repeat split; trivial;
    rewrite forallb_forall in Hsafe; apply Hsafe in H;
    apply url_safe_delimiters in H; tauto.
Qed.

(** X3: a query made of letters, digits and the characters [_.-~/] is
    sent as it is. *)
Theorem search_url_unreserved_query (query : pystr) :
  forallb quote_safe query = true ->
  snd (run (search_songs query)) =
  [lit "https://www.jiosaavn.com/api.php?__call=search.getResults&q=" ++
   query ++ lit "&_format=json&_marker=0&api_version=4&ctx=web6dot0"].
Proof.
  intros H.
  assert (Hq : quote (VStr query) = inr query).
  { destruct query as [|c q]; [reflexivity|].
    unfold quote. rewrite (utf8_encode_safe _ H).
    now rewrite (quote_from_bytes_id _ H). }
  now rewrite (search_songs_run _ _ query query Hq).
Qed.

(** What a successful call of [get_streaming_url] tells. *)
Lemma get_streaming_url_returns (song_id u : pystr) calls :
  run (get_streaming_url song_id) = (inr u, calls) ->
  exists r entries song rest mi ref enc r' answer s,
    requests_get (details_url song_id) = inr r /\
    json_loads (text r) = inr (VDict entries) /\
    dict_lookup (lit "songs") entries = Some (VList (VDict song :: rest)) /\
    dict_lookup (lit "more_info") song = Some (VDict mi) /\
    dict_lookup (lit "encrypted_media_url") mi = Some (VStr ref) /\
    quote (VStr ref) = inr enc /\
    requests_get (token_url enc) = inr r' /\
    json_loads (text r') = inr (VDict answer) /\
    dict_lookup (lit "auth_url") answer = Some (VStr s) /\
    u = cdn_transform s /\
    calls = [details_url song_id; token_url enc].
Proof.
  rewrite get_streaming_url_run, details_attempt_run. simpl.
  destruct (requests_get (details_url song_id)) as [e|r]; [discriminate|].
  simpl. destruct (json_loads (text r)) as [e|d] eqn:Hd; [discriminate|].
  simpl. destruct (encrypted_url_of d) as [e|v] eqn:Hv; [discriminate|].
  apply encrypted_url_of_inv in Hv
    as (entries & song & rest & mi & -> & Hs & Hm & Hu).
  destruct (quote v) as [e|enc] eqn:Hq; [discriminate|].
  destruct v as [| | | |ref| |]; try discriminate Hq.
  destruct (requests_get (token_url enc)) as [e|r'] eqn:Hr'; [discriminate|].
  simpl. destruct (json_loads (text r')) as [e|t] eqn:Ht; [discriminate|].
  simpl. destruct (stream_url_of t) as [e|u'] eqn:Hu'; [discriminate|].
  apply stream_url_of_inv in Hu' as (answer & s & -> & Ha & ->).
  intros [= <- <-].
  exists r, entries, song, rest, mi, ref, enc, r', answer, s.
  repeat split; trivial.
Qed.

(** X6: a URL is returned only after a complete exchange.  When
    [get_streaming_url] returns, the details body parsed to an object
    whose first song carries a string reference under [more_info], the
    token was asked for with the percent-encoding of that reference,
    the token body parsed to an object with a string [auth_url], and the
    URL returned is the transformation of that [auth_url]; exactly
    these two requests were made. *)
Theorem get_streaming_url_sound (song_id u : pystr) calls :
  run (get_streaming_url song_id) = (inr u, calls) ->
  exists r entries song rest mi ref enc r' answer s,
    requests_get (details_url song_id) = inr r /\
    json_loads (text r) = inr (VDict entries) /\
    dict_lookup (lit "songs") entries = Some (VList (VDict song :: rest)) /\
    dict_lookup (lit "more_info") song = Some (VDict mi) /\
    dict_lookup (lit "encrypted_media_url") mi = Some (VStr ref) /\
    quote (VStr ref) = inr enc /\
    requests_get (token_url enc) = inr r' /\
    json_loads (text r') = inr (VDict answer) /\
    dict_lookup (lit "auth_url") answer = Some (VStr s) /\
    u = cdn_transform s /\
    calls = [details_url song_id; token_url enc].
Proof. apply get_streaming_url_returns. Qed.

(** X7: the URL [get_streaming_url] returns never holds the host
    [web.saavncdn.com] nor the tag [_96.mp4], whatever the upstream
    answered. *)
Theorem returned_url_is_upgraded (song_id u : pystr) :
  fst (run (get_streaming_url song_id)) = inr u ->
  contains (lit "web.saavncdn.com") u = false /\
  contains (lit "_96.mp4") u = false.
Proof.
  destruct (run (get_streaming_url song_id)) as [res calls] eqn:E.
  simpl. intros ->.
  apply get_streaming_url_returns in E
    as (_ & _ & _ & _ & _ & _ & _ & _ & _ & s & _ & _ & _ & _ & _ & _ & _ &
        _ & _ & -> & _).
  apply cdn_transform_clean.
Qed.

(** The ways [get_streaming_url] can end. *)
Lemma get_streaming_url_cases (song_id : pystr) :
  run (get_streaming_url song_id) =
    (inl DetailsNotFound, [details_url song_id]) \/
  (exists e, (e = TypeError \/ e = UnicodeEncodeError) /\
     run (get_streaming_url song_id) = (inl e, [details_url song_id])) \/
  (exists enc,
     run (get_streaming_url song_id) =
     (inl TokenExpiredOrInvalid, [details_url song_id; token_url enc])) \/
  (exists enc u,
     run (get_streaming_url song_id) =
     (inr u, [details_url song_id; token_url enc])).
Proof.
  rewrite get_streaming_url_run.
  destruct (fst (run (details_attempt song_id))) as [e|v]; [now left|].
  destruct (quote v) as [e|enc] eqn:Hq.
  - right; left. exists e. split; [|reflexivity].
    apply quote_raises in Hq as [[-> _]|[-> _]]; auto.
  - right; right.
    destruct (rbind (requests_get (token_url enc)) _) as [e|u];
      [left|right]; eauto.
Qed.

(** X5: [get_streaming_url] ends in one of four ways: with
    [DetailsNotFound] after the details request alone; with the
    [TypeError] or [UnicodeEncodeError] of [quote], also after the
    details request alone; with [TokenExpiredOrInvalid] after the
    details and the token requests; or with a URL after both.  It
    makes no other request, and no exception of the network, of the
    decoder or of the lookups leaves it. *)
Theorem get_streaming_url_outcomes (song_id : pystr) :
  run (get_streaming_url song_id) =
    (inl DetailsNotFound, [details_url song_id]) \/
  (exists e, (e = TypeError \/ e = UnicodeEncodeError) /\
     run (get_streaming_url song_id) = (inl e, [details_url song_id])) \/
  (exists enc,
     run (get_streaming_url song_id) =
     (inl TokenExpiredOrInvalid, [details_url song_id; token_url enc])) \/
  (exists enc u,
     run (get_streaming_url song_id) =
     (inr u, [details_url song_id; token_url enc])).
Proof. apply get_streaming_url_cases. Qed.

(** X8: a details answer that does not arrive, does not parse, or parses
    to something that is not an object is reported as
    [DetailsNotFound], after the details request alone. *)
Theorem details_transport_failure (song_id : pystr) :
  (exists e, requests_get (details_url song_id) = inl e) \/
  (exists r e, requests_get (details_url song_id) = inr r /\
               json_loads (text r) = inl e) \/
  (exists r d, requests_get (details_url song_id) = inr r /\
               json_loads (text r) = inr d /\
               forall entries, d <> VDict entries) ->
  run (get_streaming_url song_id) =
  (inl DetailsNotFound, [details_url song_id]).
Proof.
  intros H. rewrite get_streaming_url_run, details_attempt_run. simpl.
  destruct H as [(e & ->)|[(r & e & -> & He)|(r & d & -> & Hd & Hno)]].
  - reflexivity.
  - simpl. now rewrite He.
  - simpl. rewrite Hd. simpl.
    destruct (encrypted_url_of d) as [e|v] eqn:E; [reflexivity|].
    apply encrypted_url_of_inv in E as (entries & _ & _ & _ & -> & _).
    now destruct (Hno entries).
Qed.

(** X9: the reference cannot alter the token request.  When the first
    step yields a string reference of code points without surrogates,
    the text put after [url=] is made of unreserved characters, slashes
    and percent escapes only. *)
Theorem token_url_reference_is_safe (song_id ref : pystr) :
  fst (run (details_attempt song_id)) = inr (VStr ref) ->
  forallb (fun c => c <? 0x110000)%N ref = true ->
  existsb is_surrogate ref = false ->
  exists enc,
    snd (run (get_streaming_url song_id)) =
      [lit "https://www.jiosaavn.com/api.php?__call=song.getDetails&pids=" ++
       song_id ++ lit "&_format=json&_marker=0&api_version=4&ctx=web6dot0";
       lit "https://www.jiosaavn.com/api.php?__call=song.generateAuthToken&url=" ++
       enc ++
       lit "&bitrate=320&_format=json&_marker=0&api_version=4&ctx=web6dot0"] /\
    forallb url_safe enc = true /\
    (forall c, In c enc ->
       c <> 38%N /\ c <> 61%N /\ c <> 63%N /\ c <> 35%N /\ c <> 32%N).
Proof.
  intros Hd Hv Hs. destruct (quote_str_some ref Hs) as [enc Hq].
  exists enc. rewrite get_streaming_url_run, Hd, Hq.
  pose proof (quote_str_safe ref enc Hv Hq) as Hsafe.
  repeat split; trivial;
    rewrite forallb_forall in Hsafe; apply Hsafe in H;
    apply url_safe_delimiters in H; tauto.
Qed.

End Upstream.

End MoreFacts.

(** ** The views *)

Module AppFacts.
Import PyStr Py SaavnApiService ClientAux TransformFacts ClientFacts
  QuoteFacts MoreFacts App StripFacts.

(** X12: what both search views forward is trimmed.  [strip] removes
    the white space at both ends and nothing else: its result neither
    starts nor ends with white space, it is empty exactly for a blank
    string, white space added around a string does not change it, and
    a string without white space at its ends is left as it is. *)
Theorem strip_trims (s : pystr) :
  (forall c r, strip s = c :: r -> is_space c = false) /\
  (forall r c, strip s = r ++ [c] -> is_space c = false) /\
  (strip s = [] <-> forallb is_space s = true) /\
  (forall pre post,
     forallb is_space pre = true -> forallb is_space post = true ->
     strip (pre ++ s ++ post) = strip s) /\
  strip (strip s) = strip s.
Proof.
  split; [apply strip_head|].
  split; [apply strip_last|].
  split; [apply strip_blank|].
  split; [intros pre post; apply strip_pad|].
  apply strip_fixed; [apply strip_head|apply strip_last].
Qed.

Section Upstream.

Variable requests_get : pystr -> result response.
Variable json_loads : pystr -> result value.

Local Abbreviation search_songs :=
  (SaavnApiService.search_songs requests_get json_loads).
Local Abbreviation get_streaming_url :=
  (SaavnApiService.get_streaming_url requests_get json_loads).
Local Abbreviation index := (App.index requests_get json_loads).
Local Abbreviation api_search := (App.api_search requests_get json_loads).
Local Abbreviation api_stream := (App.api_stream requests_get json_loads).

(** [api_search] on a query that is not blank: the answer of
    [search_songs] on the trimmed query, wrapped. *)
Lemma api_search_run (req : request) c q :
  strip (multi_get (lit "q") (args req) []) = c :: q ->
  run (api_search req) =
  match run (search_songs (c :: q)) with
  | (inr results, calls) => (inr (jsonify [(lit "results", Val results)]), calls)
  | (inl e, calls) =>
      (inr (with_code (jsonify [(lit "error", StrOf e)]) 500), calls)
  end.
Proof.
  intros H. unfold run, App.api_search, try_except, bind, ret.
  rewrite H.
  destruct (SaavnApiService.search_songs requests_get json_loads (c :: q) [])
    as [[e|results] calls]; reflexivity.
Qed.

(** X13: [/api/search] without a query.  When the parameter [q] is
    missing, empty or made of white space only, the view answers 400
    with the error [Query parameter required] and asks the upstream
    nothing. *)
Theorem api_search_blank (req : request) :
  forallb is_space (multi_get (lit "q") (args req) []) = true ->
  run (api_search req) =
  (inr {| json := [(lit "error", Val (VStr (lit "Query parameter required")))];
          status := 400 |},
   []).
Proof.
  intros H. apply strip_blank in H.
  unfold run, App.api_search. now rewrite H.
Qed.

(** X14: [/api/search] with a query.  When [q] is not blank and holds no
    surrogate, the view answers 200 with what [search_songs] returns
    for the trimmed query under [results], after the one request of
    that search; it never answers an error then. *)
Theorem api_search_found (req : request) :
  forallb is_space (multi_get (lit "q") (args req) []) = false ->
  existsb is_surrogate (multi_get (lit "q") (args req) []) = false ->
  exists enc results,
    quote (VStr (strip (multi_get (lit "q") (args req) []))) = inr enc /\
    run (search_songs (strip (multi_get (lit "q") (args req) []))) =
      (inr results, [search_url enc]) /\
    run (api_search req) =
      (inr {| json := [(lit "results", Val results)]; status := 200 |},
       [search_url enc]).
Proof.
  intros Hb Hs.
  destruct (strip (multi_get (lit "q") (args req) [])) as [|c q] eqn:E.
  { apply strip_blank in E. congruence. }
  rewrite <- existsb_surrogate_strip, E in Hs.
  destruct (quote_str_some _ Hs) as [enc Hq].
  rewrite (api_search_run req c q E).
  rewrite (search_songs_run _ _ (c :: q) enc Hq).
  eexists enc, _. repeat split. exact Hq.
Qed.

(** X15: [/api/search] answers 500 only for a query it cannot encode.
    When [q] holds a surrogate code point, the view answers 500 with
    the text of the [UnicodeEncodeError] and asks the upstream nothing;
    and whenever it answers 500, [q] holds a surrogate. *)
Theorem api_search_error (req : request) :
  (existsb is_surrogate (multi_get (lit "q") (args req) []) = true ->
   run (api_search req) =
   (inr {| json := [(lit "error", StrOf UnicodeEncodeError)]; status := 500 |},
    [])) /\
  (forall resp calls,
     run (api_search req) = (inr resp, calls) -> status resp = 500%Z ->
     existsb is_surrogate (multi_get (lit "q") (args req) []) = true).
Proof.
  split.
  - intros Hs.
    destruct (strip (multi_get (lit "q") (args req) [])) as [|c q] eqn:E.
    + rewrite <- existsb_surrogate_strip, E in Hs. discriminate.
    + rewrite (api_search_run req c q E).
      rewrite <- existsb_surrogate_strip, E in Hs.
      assert (Hq : quote (VStr (c :: q)) = inl UnicodeEncodeError)
        by (apply quote_str_raises; auto).
      now rewrite (search_songs_unquotable _ _ (c :: q) _ Hq).
  - intros resp calls.
    destruct (strip (multi_get (lit "q") (args req) [])) as [|c q] eqn:E.
    + unfold run, App.api_search. rewrite E. intros [= <- _]. discriminate.
    + rewrite (api_search_run req c q E).
      rewrite <- existsb_surrogate_strip, E.
      destruct (quote (VStr (c :: q))) as [x|enc] eqn:Hq.
      * apply quote_str_raises in Hq as [_ Hq]. now rewrite Hq.
      * rewrite (search_songs_run _ _ (c :: q) enc Hq).
        intros [= <- _]. discriminate.
Qed.

(** X16: a failing upstream is not an error for [/api/search].  When the
    search request fails, or is answered with a status other than 200,
    the view still answers 200, with an empty list of results. *)
Theorem api_search_hides_upstream_failure (req : request) (enc : pystr) :
  forallb is_space (multi_get (lit "q") (args req) []) = false ->
  quote (VStr (strip (multi_get (lit "q") (args req) []))) = inr enc ->
  (exists e, requests_get (search_url enc) = inl e) \/
  (exists r, requests_get (search_url enc) = inr r /\ status_code r <> 200%Z) ->
  run (api_search req) =
  (inr {| json := [(lit "results", Val (VList []))]; status := 200 |},
   [search_url enc]).
Proof.
  intros Hb Hq Hfail.
  destruct (strip (multi_get (lit "q") (args req) [])) as [|c q] eqn:E.
  { apply strip_blank in E. congruence. }
  rewrite (api_search_run req c q E).
  rewrite (search_songs_run _ _ (c :: q) enc Hq).
  destruct Hfail as [(e & ->)|(r & -> & Hst)]; [reflexivity|].
  apply Z.eqb_neq in Hst. now rewrite Hst.
Qed.

(** X17: white space around the query makes no difference to
    [/api/search]: the same answer, after the same requests. *)
Theorem api_search_ignores_padding (m : pystr) (f : list (pystr * pystr))
  (pre q post : pystr) :
  forallb is_space pre = true -> forallb is_space post = true ->
  run (api_search {| method := m; form := f;
                     args := [(lit "q", pre ++ q ++ post)] |}) =
  run (api_search {| method := m; form := f; args := [(lit "q", q)] |}).
Proof.
  intros Hpre Hpost. unfold run, App.api_search. simpl.
  now rewrite (strip_pad pre q post Hpre Hpost).
Qed.

(** [api_stream]: the answer of [get_streaming_url], wrapped. *)
Lemma api_stream_run (song_id : pystr) :
  run (api_stream song_id) =
  match run (get_streaming_url song_id) with
  | (inr url, calls) =>
      (inr (jsonify [(lit "stream_url", Val (VStr url))]), calls)
  | (inl e, calls) =>
      (inr (with_code (jsonify [(lit "error", StrOf e)]) 500), calls)
  end.
Proof.
  unfold run, App.api_stream, try_except, bind, ret.
  destruct (SaavnApiService.get_streaming_url requests_get json_loads
              song_id []) as [[e|url] calls]; reflexivity.
Qed.

(** X18: [/api/stream/<song_id>] never raises and answers in one of two
    ways: 200 with a [stream_url] that holds neither
    [web.saavncdn.com] nor [_96.mp4], after the two requests of the
    exchange; or 500 with the text of one of four exceptions, the two
    the service raises itself ([Could not get song details] after one
    request, [Could not generate streaming URL] after two) and the two
    of [quote]. *)
Theorem api_stream_answers (song_id : pystr) :
  exists resp calls,
    run (api_stream song_id) = (inr resp, calls) /\
    ((status resp = 200%Z /\
      exists url enc,
        json resp = [(lit "stream_url", Val (VStr url))] /\
        contains (lit "web.saavncdn.com") url = false /\
        contains (lit "_96.mp4") url = false /\
        calls = [details_url song_id; token_url enc]) \/
     (status resp = 500%Z /\
      exists e,
        json resp = [(lit "error", StrOf e)] /\
        ((e = DetailsNotFound /\ calls = [details_url song_id] /\
          own_message e = Some (lit "Could not get song details")) \/
         (e = TokenExpiredOrInvalid /\
          own_message e = Some (lit "Could not generate streaming URL") /\
          exists enc, calls = [details_url song_id; token_url enc]) \/
         ((e = TypeError \/ e = UnicodeEncodeError) /\
          calls = [details_url song_id])))).
Proof.
  rewrite api_stream_run.
  destruct (get_streaming_url_cases requests_get json_loads song_id)
    as [H|[(e & He & H)|[(enc & H)|(enc & u & H)]]]; rewrite H.
  - eexists _, _. split; [reflexivity|]. right. split; [reflexivity|].
    exists DetailsNotFound. split; [reflexivity|]. left. auto.
  - eexists _, _. split; [reflexivity|]. right. split; [reflexivity|].
    exists e. split; [reflexivity|]. right. right. auto.
  - eexists _, _. split; [reflexivity|]. right. split; [reflexivity|].
    exists TokenExpiredOrInvalid. split; [reflexivity|]. right. left.
    repeat split. eauto.
  - eexists _, _. split; [reflexivity|]. left. split; [reflexivity|].
    exists u, enc.
    apply get_streaming_url_returns in H
      as (_ & _ & _ & _ & _ & _ & _ & _ & _ & s & _ & _ & _ & _ & _ & _ & _ &
          _ & _ & -> & _).
    destruct (cdn_transform_clean s). auto.
Qed.

(** [index] on a posted query that is not blank. *)
Lemma index_run (req : request) c q :
  str_eqb (method req) (lit "POST") = true ->
  strip (multi_get (lit "query") (form req) []) = c :: q ->
  run (index req) =
  match run (search_songs (c :: q)) with
  | (inr results, calls) =>
      (inr {| template := lit "index.html"; page_results := results;
              page_error := None; page_query := c :: q |}, calls)
  | (inl e, calls) =>
      (inr {| template := lit "index.html"; page_results := VList [];
              page_error := Some e; page_query := c :: q |}, calls)
  end.
Proof.
  intros Hm H. unfold run, App.index, try_except, bind, ret.
  rewrite Hm, H.
  destruct (SaavnApiService.search_songs requests_get json_loads (c :: q) [])
    as [[e|results] calls]; reflexivity.
Qed.

(** X19: the page without a search.  For a request that is not a POST,
    and for a POST whose field [query] is missing or blank, [index]
    renders [index.html] with no results, no error and an empty query,
    and asks the upstream nothing. *)
Theorem index_without_query (req : request) :
  method req <> lit "POST" \/
  forallb is_space (multi_get (lit "query") (form req) []) = true ->
  run (index req) =
  (inr {| template := lit "index.html"; page_results := VList [];
          page_error := None; page_query := [] |}, []).
Proof.
  intros H. unfold run, App.index.
  destruct (str_eqb (method req) (lit "POST")) eqn:Hm.
  - destruct H as [H|H].
    + apply PyStrFacts.str_eqb_eq in Hm. contradiction.
    + apply strip_blank in H. now rewrite H.
  - reflexivity.
Qed.

(** X20: the page with a search.  For a POST whose field [query] is not
    blank, [index] renders [index.html] with the trimmed query.  When
    the query holds no surrogate, the results are those of
    [search_songs] for the trimmed query, there is no error, and one
    request was made; when it holds one, there are no results, the
    error is the text of the [UnicodeEncodeError], and no request was
    made.  The page shows an error in no other case. *)
Theorem index_with_query (req : request) :
  method req = lit "POST" ->
  forallb is_space (multi_get (lit "query") (form req) []) = false ->
  (existsb is_surrogate (multi_get (lit "query") (form req) []) = false ->
   exists enc results,
     run (search_songs (strip (multi_get (lit "query") (form req) []))) =
       (inr results, [search_url enc]) /\
     run (index req) =
       (inr {| template := lit "index.html"; page_results := results;
               page_error := None;
               page_query := strip (multi_get (lit "query") (form req) []) |},
        [search_url enc])) /\
  (existsb is_surrogate (multi_get (lit "query") (form req) []) = true ->
   run (index req) =
     (inr {| template := lit "index.html"; page_results := VList [];
             page_error := Some UnicodeEncodeError;
             page_query := strip (multi_get (lit "query") (form req) []) |},
      [])).
Proof.
  intros Hm Hb. apply PyStrFacts.str_eqb_eq in Hm.
  destruct (strip (multi_get (lit "query") (form req) [])) as [|c q] eqn:E.
  { apply strip_blank in E. congruence. }
  rewrite (index_run req c q Hm E).
  rewrite <- existsb_surrogate_strip, E.
  split; intros Hs.
  - destruct (quote_str_some _ Hs) as [enc Hq].
    rewrite (search_songs_run _ _ (c :: q) enc Hq).
    eexists enc, _. split; reflexivity.
  - assert (Hq : quote (VStr (c :: q)) = inl UnicodeEncodeError)
      by (apply quote_str_raises; auto).
    now rewrite (search_songs_unquotable _ _ (c :: q) _ Hq).
Qed.

End Upstream.

End AppFacts.

(** ** The further properties on concrete exchanges *)

Module MoreScenarios.
Import PyStr Py SaavnApiService ClientAux App AppAux MoreFacts AppFacts
  Scenarios.

Lemma cdn_transform_fixed_iff_witness :
  cdn_transform (lit "https://aac.saavncdn.com/a_320.mp4") =
  lit "https://aac.saavncdn.com/a_320.mp4".
Proof.
  apply (proj2 (cdn_transform_fixed_iff _)). split; by_computation.
Defined.

Lemma clean_json_from_first_brace_witness :
  exists noise,
    lit "ok {x} {y}" = noise ++ clean_json (lit "ok {x} {y}") /\
    contains (lit "{") noise = false /\
    starts_with (lit "{") (clean_json (lit "ok {x} {y}")) = true.
Proof.
  apply (proj1 clean_json_from_first_brace (lit "ok {x} {y}")).
  by_computation.
Defined.

Lemma search_songs_raises_iff_witness :
  run (search_songs upstream PyJson.loads [97%N; 0xDC00%N]) =
  (inl UnicodeEncodeError, []).
Proof.
  apply (proj2 (search_songs_raises_iff upstream PyJson.loads
                  [97%N; 0xDC00%N])).
  by_computation.
Defined.

Lemma search_url_query_is_safe_witness :
  exists enc,
    snd (run (search_songs upstream PyJson.loads (lit "a&b=c d#?"))) =
      [lit "https://www.jiosaavn.com/api.php?__call=search.getResults&q=" ++
       enc ++ lit "&_format=json&_marker=0&api_version=4&ctx=web6dot0"] /\
    forallb Below.url_safe enc = true /\
    (forall c, In c enc ->
       c <> 38%N /\ c <> 61%N /\ c <> 63%N /\ c <> 35%N /\ c <> 32%N).
Proof.
  apply (search_url_query_is_safe upstream PyJson.loads (lit "a&b=c d#?"));
    by_computation.
Defined.

Lemma search_url_unreserved_query_witness :
  snd (run (search_songs upstream PyJson.loads (lit "Kesariya"))) =
  [lit "https://www.jiosaavn.com/api.php?__call=search.getResults&q=" ++
   lit "Kesariya" ++ lit "&_format=json&_marker=0&api_version=4&ctx=web6dot0"].
Proof.
  apply (search_url_unreserved_query upstream PyJson.loads (lit "Kesariya")).
  by_computation.
Defined.

Lemma get_streaming_url_sound_witness :
  exists r entries song rest mi ref enc r' answer s,
    upstream (details_url track) = inr r /\
    PyJson.loads (text r) = inr (VDict entries) /\
    dict_lookup (lit "songs") entries = Some (VList (VDict song :: rest)) /\
    dict_lookup (lit "more_info") song = Some (VDict mi) /\
    dict_lookup (lit "encrypted_media_url") mi = Some (VStr ref) /\
    quote (VStr ref) = inr enc /\
    upstream (token_url enc) = inr r' /\
    PyJson.loads (text r') = inr (VDict answer) /\
    dict_lookup (lit "auth_url") answer = Some (VStr s) /\
    lit "https://aac.saavncdn.com/s_320.mp4" = cdn_transform s /\
    [details_url track; token_url (lit "E1")] =
      [details_url track; token_url enc].
Proof.
  apply (get_streaming_url_sound upstream PyJson.loads track
           (lit "https://aac.saavncdn.com/s_320.mp4")
           [details_url track; token_url (lit "E1")]).
  by_computation.
Defined.

Lemma returned_url_is_upgraded_witness :
  contains (lit "web.saavncdn.com") (lit "https://aac.saavncdn.com/s_320.mp4") =
    false /\
  contains (lit "_96.mp4") (lit "https://aac.saavncdn.com/s_320.mp4") = false.
Proof.
  apply (returned_url_is_upgraded upstream PyJson.loads track
           (lit "https://aac.saavncdn.com/s_320.mp4")).
  by_computation.
Defined.

Lemma details_transport_failure_witness :
  run (get_streaming_url (always 200 (lit "<html>busy</html>")) PyJson.loads
         track) =
  (inl DetailsNotFound, [details_url track]).
Proof.
  apply (details_transport_failure (always 200 (lit "<html>busy</html>"))
           PyJson.loads track).
  right. left.
  exists {| status_code := 200; text := lit "<html>busy</html>" |},
         JSONDecodeError.
  split; by_computation.
Defined.

Lemma token_url_reference_is_safe_witness :
  exists enc,
    snd (run (get_streaming_url upstream PyJson.loads track)) =
      [lit "https://www.jiosaavn.com/api.php?__call=song.getDetails&pids=" ++
       track ++ lit "&_format=json&_marker=0&api_version=4&ctx=web6dot0";
       lit "https://www.jiosaavn.com/api.php?__call=song.generateAuthToken&url=" ++
       enc ++
       lit "&bitrate=320&_format=json&_marker=0&api_version=4&ctx=web6dot0"] /\
    forallb Below.url_safe enc = true /\
    (forall c, In c enc ->
       c <> 38%N /\ c <> 61%N /\ c <> 63%N /\ c <> 35%N /\ c <> 32%N).
Proof.
  apply (token_url_reference_is_safe upstream PyJson.loads track (lit "E1"));
    by_computation.
Defined.

Lemma strip_trims_witness :
  strip (lit "  " ++ lit "tum hi ho" ++ lit " ") = strip (lit "tum hi ho").
Proof.
  apply (proj1 (proj2 (proj2 (proj2 (strip_trims (lit "tum hi ho")))))
           (lit "  ") (lit " ")); by_computation.
Defined.

Lemma api_search_blank_witness :
  run (api_search upstream PyJson.loads (search_request (lit "   "))) =
  (inr {| json := [(lit "error", Val (VStr (lit "Query parameter required")))];
          status := 400 |},
   []).
Proof.
  apply (api_search_blank upstream PyJson.loads (search_request (lit "   "))).
  by_computation.
Defined.

Lemma api_search_found_witness :
  exists enc results,
    quote (VStr (strip (lit " tum hi ho "))) = inr enc /\
    run (search_songs (always 200 search_body) PyJson.loads
           (strip (lit " tum hi ho "))) =
      (inr results, [search_url enc]) /\
    run (api_search (always 200 search_body) PyJson.loads
           (search_request (lit " tum hi ho "))) =
      (inr {| json := [(lit "results", Val results)]; status := 200 |},
       [search_url enc]).
Proof.
  apply (api_search_found (always 200 search_body) PyJson.loads
           (search_request (lit " tum hi ho "))); by_computation.
Defined.

Lemma api_search_error_witness :
  run (api_search upstream PyJson.loads (search_request [0xD800%N])) =
  (inr {| json := [(lit "error", StrOf UnicodeEncodeError)]; status := 500 |},
   []).
Proof.
  apply (proj1 (api_search_error upstream PyJson.loads
                  (search_request [0xD800%N]))).
  by_computation.
Defined.

Lemma api_search_hides_upstream_failure_witness :
  run (api_search (always 503 (lit "Service Unavailable")) PyJson.loads
         (search_request (lit "arijit"))) =
  (inr {| json := [(lit "results", Val (VList []))]; status := 200 |},
   [search_url (lit "arijit")]).
Proof.
  apply (api_search_hides_upstream_failure
           (always 503 (lit "Service Unavailable")) PyJson.loads
           (search_request (lit "arijit")) (lit "arijit")).
  - by_computation.
  - by_computation.
  - right.
    exists {| status_code := 503; text := lit "Service Unavailable" |}.
    split; [reflexivity|discriminate].
Defined.

Lemma api_search_ignores_padding_witness :
  run (api_search (always 200 search_body) PyJson.loads
         {| method := lit "GET"; form := [];
            args := [(lit "q", lit "  " ++ lit "arijit" ++ lit " ")] |}) =
  run (api_search (always 200 search_body) PyJson.loads
         {| method := lit "GET"; form := [];
            args := [(lit "q", lit "arijit")] |}).
Proof.
  apply (api_search_ignores_padding (always 200 search_body) PyJson.loads
           (lit "GET") [] (lit "  ") (lit "arijit") (lit " "));
    by_computation.
Defined.

Lemma index_without_query_witness :
  run (index upstream PyJson.loads page_request) =
  (inr {| template := lit "index.html"; page_results := VList [];
          page_error := None; page_query := [] |}, []).
Proof.
  apply (index_without_query upstream PyJson.loads page_request).
  left. discriminate.
Defined.

Lemma index_with_query_witness :
  exists enc results,
    run (search_songs (always 200 search_body) PyJson.loads
           (strip (lit " tum hi ho "))) =
      (inr results, [search_url enc]) /\
    run (index (always 200 search_body) PyJson.loads
           (post_request (lit " tum hi ho "))) =
      (inr {| template := lit "index.html"; page_results := results;
              page_error := None;
              page_query := strip (lit " tum hi ho ") |},
       [search_url enc]).
Proof.
  apply (proj1 (index_with_query (always 200 search_body) PyJson.loads
                  (post_request (lit " tum hi ho ")) eq_refl eq_refl)).
  by_computation.
Defined.

End MoreScenarios.

(** ** Percent-encoding, read back *)

Module EncodingFacts.
Import PyStr Py SaavnApiService Below QuoteFacts ClientFacts Percent.
Local Open Scope N_scope.

(** Quotient and remainder of a division by a constant, as two numbers
    tied by the division. *)
Ltac euclid c k :=
  let q := fresh "q" in
  let m := fresh "m" in
  pose proof (N.div_mod c k ltac:(discriminate));
  pose proof (N.mod_lt c k ltac:(discriminate));
  set (q := c / k) in *; set (m := c mod k) in *; clearbody q m.

(** *** Escapes *)

(** The characters [quote] leaves as they are are those a query value
    keeps. *)
Lemma kept_quote_safe (b : N) : kept b = quote_safe b.
Proof.
  unfold kept, unreserved, is_alpha, is_digit, quote_safe, always_safe.
  destruct (65 <=? b), (b <=? 90), (97 <=? b), (b <=? 122), (48 <=? b),
    (b <=? 57), (b =? 45), (b =? 46), (b =? 95), (b =? 126), (b =? 47);
    reflexivity.
Qed.

Lemma percent_decode_escape (h l : char) (r : pystr) :
  percent_decode (37 :: h :: l :: r) =
  match hex_value_upper h, hex_value_upper l with
  | Some a, Some b =>
      if kept (16 * a + b) then None
      else option_map (cons (16 * a + b)) (percent_decode r)
  | _, _ => None
  end.
Proof. reflexivity. Qed.

Lemma percent_decode_plain (c : char) (r : pystr) :
  kept c = true ->
  percent_decode (c :: r) = option_map (cons c) (percent_decode r).
Proof.
  intros H. unfold percent_decode; fold percent_decode.
  destruct (N.eqb_spec c 37) as [->|_]; [discriminate H|].
  now rewrite H.
Qed.

(** The two digits of an escape give the byte back. *)
Lemma escape_digits (b : N) :
  b < 256 ->
  hex_value_upper (hex_digit (N.shiftr b 4)) = Some (N.shiftr b 4) /\
  hex_value_upper (hex_digit (N.land b 15)) = Some (N.land b 15) /\
  16 * N.shiftr b 4 + N.land b 15 = b.
Proof.
  intros Hb.
  assert (H : (match hex_value_upper (hex_digit (N.shiftr b 4)),
                     hex_value_upper (hex_digit (N.land b 15)) with
               | Some a, Some c =>
                   (a =? N.shiftr b 4) && (c =? N.land b 15) &&
                   (16 * a + c =? b)
               | _, _ => false
               end) = true).
  { revert b Hb. apply all_below_spec. vm_compute. reflexivity. }
  destruct (hex_value_upper (hex_digit (N.shiftr b 4))) as [a|];
    [|discriminate].
  destruct (hex_value_upper (hex_digit (N.land b 15))) as [c|];
    [|discriminate].
  apply andb_prop in H as [H H3]. apply andb_prop in H as [H1 H2].
  apply N.eqb_eq in H1, H2, H3. subst a c. auto.
Qed.

Lemma percent_decode_quote_byte (b : N) (r : pystr) :
  b < 256 ->
  percent_decode (quote_byte b ++ r) = option_map (cons b) (percent_decode r).
Proof.
  intros Hb. unfold quote_byte. rewrite <- kept_quote_safe.
  destruct (kept b) eqn:S.
  - now apply percent_decode_plain.
  - destruct (escape_digits b Hb) as (H1 & H2 & H3).
    change ([37; hex_digit (N.shiftr b 4); hex_digit (N.land b 15)] ++ r)
      with (37 :: hex_digit (N.shiftr b 4) :: hex_digit (N.land b 15) :: r).
    rewrite percent_decode_escape, H1, H2, H3, S. reflexivity.
Qed.

(** Reading the quoted bytes gives the bytes. *)
Lemma percent_decode_quote_from_bytes (bs : list N) :
  forallb (fun b => b <? 256) bs = true ->
  percent_decode (quote_from_bytes bs) = Some bs.
Proof.
  unfold quote_from_bytes. induction bs as [|b bs IH]; [reflexivity|].
  intros H. simpl in H. apply andb_prop in H as [Hb H]. apply N.ltb_lt in Hb.
  change (flat_map quote_byte (b :: bs))
    with (quote_byte b ++ flat_map quote_byte bs).
  now rewrite (percent_decode_quote_byte b _ Hb), (IH H).
Qed.

(** *** UTF-8 *)

Lemma lor_is_add (tag bound y : N) :
  all_below (fun y => N.lor tag y =? tag + y) bound = true ->
  y < bound -> N.lor tag y = tag + y.
Proof.
  intros H Hy. apply N.eqb_eq.
  now apply (all_below_spec (fun y => N.lor tag y =? tag + y) bound).
Qed.

Lemma continuation_is_add (x : N) :
  N.lor 128 (N.land x 63) = 128 + x mod 64.
Proof.
  change 63 with (N.ones 6). rewrite N.land_ones.
  apply (lor_is_add 128 64); [reflexivity|].
  apply N.mod_lt. discriminate.
Qed.

Lemma shiftr_6 (c : N) : N.shiftr c 6 = c / 64.
Proof. now rewrite N.shiftr_div_pow2. Qed.

Lemma shiftr_12 (c : N) : N.shiftr c 12 = c / 64 / 64.
Proof. now rewrite N.shiftr_div_pow2, N.Div0.div_div. Qed.

Lemma shiftr_18 (c : N) : N.shiftr c 18 = c / 64 / 64 / 64.
Proof. now rewrite N.shiftr_div_pow2, !N.Div0.div_div. Qed.

(** The bytes of a code point, by arithmetic. *)
Lemma utf8_char_arith (c : char) :
  c < 0x110000 ->
  utf8_char c =
  if c <? 128 then Some [c]
  else if c <? 2048 then Some [192 + c / 64; 128 + c mod 64]
  else if is_surrogate c then None
  else if c <? 65536 then
    Some [224 + c / 64 / 64; 128 + (c / 64) mod 64; 128 + c mod 64]
  else
    Some [240 + c / 64 / 64 / 64; 128 + (c / 64 / 64) mod 64;
          128 + (c / 64) mod 64; 128 + c mod 64].
Proof.
  intros Hc. unfold utf8_char.
  rewrite !continuation_is_add, shiftr_6, shiftr_12, shiftr_18.
  destruct (N.ltb_spec c 128); [reflexivity|].
  destruct (N.ltb_spec c 2048).
  { rewrite (lor_is_add 192 32); [reflexivity|reflexivity|].
    euclid c 64. lia. }
  destruct (is_surrogate c); [reflexivity|].
  destruct (N.ltb_spec c 65536).
  { rewrite (lor_is_add 224 16); [reflexivity|reflexivity|].
    euclid c 64. euclid q 64. lia. }
  rewrite (lor_is_add 240 5); [reflexivity|reflexivity|].
  euclid c 64. euclid q 64. euclid q0 64. lia.
Qed.

Lemma utf8_decode_1 (b1 : N) (r : list N) :
  b1 < 128 ->
  utf8_decode (b1 :: r) = option_map (cons b1) (utf8_decode r).
Proof.
  intros H. unfold utf8_decode; fold utf8_decode.
  now destruct (N.ltb_spec b1 128); [|lia].
Qed.

Lemma utf8_decode_2 (b1 b2 : N) (r : list N) :
  192 <= b1 < 224 -> 128 <= b2 < 192 ->
  128 <= (b1 - 192) * 64 + (b2 - 128) ->
  utf8_decode (b1 :: b2 :: r) =
  option_map (cons ((b1 - 192) * 64 + (b2 - 128))) (utf8_decode r).
Proof.
  intros H1 H2 Hc. unfold utf8_decode; fold utf8_decode.
  unfold is_continuation.
  destruct (N.ltb_spec b1 128); [lia|].
  destruct (N.leb_spec 192 b1); [|lia].
  destruct (N.ltb_spec b1 224); [|lia].
  destruct (N.leb_spec 128 b2); [|lia].
  destruct (N.ltb_spec b2 192); [|lia].
  destruct (N.leb_spec 128 ((b1 - 192) * 64 + (b2 - 128))); [|lia].
  reflexivity.
Qed.

Lemma utf8_decode_3 (b1 b2 b3 : N) (r : list N) :
  224 <= b1 < 240 -> 128 <= b2 < 192 -> 128 <= b3 < 192 ->
  2048 <= (b1 - 224) * 4096 + (b2 - 128) * 64 + (b3 - 128) ->
  is_surrogate ((b1 - 224) * 4096 + (b2 - 128) * 64 + (b3 - 128)) = false ->
  utf8_decode (b1 :: b2 :: b3 :: r) =
  option_map (cons ((b1 - 224) * 4096 + (b2 - 128) * 64 + (b3 - 128)))
    (utf8_decode r).
Proof.
  intros H1 H2 H3 Hc Hs. unfold utf8_decode; fold utf8_decode.
  unfold is_continuation. rewrite Hs.
  destruct (N.ltb_spec b1 128); [lia|].
  destruct (N.leb_spec 192 b1); [|lia].
  destruct (N.ltb_spec b1 224); [lia|].
  destruct (N.leb_spec 224 b1); [|lia].
  destruct (N.ltb_spec b1 240); [|lia].
  destruct (N.leb_spec 128 b2); [|lia].
  destruct (N.ltb_spec b2 192); [|lia].
  destruct (N.leb_spec 128 b3); [|lia].
  destruct (N.ltb_spec b3 192); [|lia].
  destruct (N.leb_spec 2048 ((b1 - 224) * 4096 + (b2 - 128) * 64 + (b3 - 128)));
    [|lia].
  reflexivity.
Qed.

Lemma utf8_decode_4 (b1 b2 b3 b4 : N) (r : list N) :
  240 <= b1 < 248 -> 128 <= b2 < 192 -> 128 <= b3 < 192 -> 128 <= b4 < 192 ->
  65536 <= (b1 - 240) * 262144 + (b2 - 128) * 4096 + (b3 - 128) * 64 +
           (b4 - 128) < 0x110000 ->
  utf8_decode (b1 :: b2 :: b3 :: b4 :: r) =
  option_map
    (cons ((b1 - 240) * 262144 + (b2 - 128) * 4096 + (b3 - 128) * 64 +
           (b4 - 128)))
    (utf8_decode r).
Proof.
  intros H1 H2 H3 H4 Hc. unfold utf8_decode; fold utf8_decode.
  unfold is_continuation.
  destruct (N.ltb_spec b1 128); [lia|].
  destruct (N.leb_spec 192 b1); [|lia].
  destruct (N.ltb_spec b1 224); [lia|].
  destruct (N.leb_spec 224 b1); [|lia].
  destruct (N.ltb_spec b1 240); [lia|].
  destruct (N.leb_spec 240 b1); [|lia].
  destruct (N.ltb_spec b1 248); [|lia].
  destruct (N.leb_spec 128 b2); [|lia].
  destruct (N.ltb_spec b2 192); [|lia].
  destruct (N.leb_spec 128 b3); [|lia].
  destruct (N.ltb_spec b3 192); [|lia].
  destruct (N.leb_spec 128 b4); [|lia].
  destruct (N.ltb_spec b4 192); [|lia].
  destruct (N.leb_spec 65536
              ((b1 - 240) * 262144 + (b2 - 128) * 4096 + (b3 - 128) * 64 +
               (b4 - 128))); [|lia].
  destruct (N.ltb_spec
              ((b1 - 240) * 262144 + (b2 - 128) * 4096 + (b3 - 128) * 64 +
               (b4 - 128)) 0x110000); [|lia].
  reflexivity.
Qed.

Lemma utf8_decode_char_cases (c : char) (r : list N) :
  c < 0x110000 ->
  match utf8_char c with
  | Some bs => utf8_decode (bs ++ r) = option_map (cons c) (utf8_decode r)
  | None => True
  end.
Proof.
  intros Hc. rewrite (utf8_char_arith c Hc).
  destruct (N.ltb_spec c 128); [now apply utf8_decode_1|].
  destruct (N.ltb_spec c 2048).
  { rewrite <- !app_comm_cons, app_nil_l.
    assert (E : (192 + c / 64 - 192) * 64 + (128 + c mod 64 - 128) = c)
      by (euclid c 64; lia).
    rewrite (utf8_decode_2 (192 + c / 64) (128 + c mod 64) r);
      rewrite ?E; trivial; euclid c 64; lia. }
  destruct (is_surrogate c) eqn:Hs; [exact I|].
  destruct (N.ltb_spec c 65536).
  { rewrite <- !app_comm_cons, app_nil_l.
    assert (E : (224 + c / 64 / 64 - 224) * 4096 +
                (128 + (c / 64) mod 64 - 128) * 64 +
                (128 + c mod 64 - 128) = c)
      by (euclid c 64; euclid q 64; lia).
    rewrite (utf8_decode_3 (224 + c / 64 / 64) (128 + (c / 64) mod 64)
               (128 + c mod 64) r);
      rewrite ?E; trivial; euclid c 64; euclid q 64; lia. }
  rewrite <- !app_comm_cons, app_nil_l.
  assert (E : (240 + c / 64 / 64 / 64 - 240) * 262144 +
              (128 + (c / 64 / 64) mod 64 - 128) * 4096 +
              (128 + (c / 64) mod 64 - 128) * 64 +
              (128 + c mod 64 - 128) = c)
    by (euclid c 64; euclid q 64; euclid q0 64; lia).
  rewrite (utf8_decode_4 (240 + c / 64 / 64 / 64) (128 + (c / 64 / 64) mod 64)
             (128 + (c / 64) mod 64) (128 + c mod 64) r);
    rewrite ?E; trivial; euclid c 64; euclid q 64; euclid q0 64; lia.
Qed.

(** Reading the bytes of a code point gives the code point. *)
Lemma utf8_decode_char (c : char) (bs r : list N) :
  c < 0x110000 -> utf8_char c = Some bs ->
  utf8_decode (bs ++ r) = option_map (cons c) (utf8_decode r).
Proof.
  intros Hc E. pose proof (utf8_decode_char_cases c r Hc) as H.
  now rewrite E in H.
Qed.

Lemma utf8_decode_encode (s : pystr) (bs : list N) :
  forallb (fun c => c <? 0x110000) s = true ->
  utf8_encode s = Some bs -> utf8_decode bs = Some s.
Proof.
  revert bs; induction s as [|c s IH]; intros bs Hv; simpl.
  - now intros [= <-].
  - simpl in Hv. apply andb_prop in Hv as [Hc Hv]. apply N.ltb_lt in Hc.
    destruct (utf8_char c) as [b1|] eqn:E1; [|discriminate].
    destruct (utf8_encode s) as [b2|]; [|discriminate].
    intros [= <-].
    now rewrite (utf8_decode_char c b1 b2 Hc E1), (IH b2 Hv eq_refl).
Qed.

(** The text [quote] gives for a string reads back as the string. *)
Lemma percent_decoded_quote (s enc : pystr) :
  forallb (fun c => c <? 0x110000) s = true ->
  quote (VStr s) = inr enc ->
  percent_decoded enc = Some s.
Proof.
  intros Hv. destruct s as [|c s]; [now intros [= <-]|].
  unfold quote.
  destruct (utf8_encode (c :: s)) as [bs|] eqn:E; [|discriminate].
  intros [= <-]. unfold percent_decoded.
  rewrite (percent_decode_quote_from_bytes bs
             (utf8_encode_bytes _ _ Hv E)).
  now apply utf8_decode_encode.
Qed.

(** *** The reader accepts nothing else *)

Lemma hex_value_upper_inv (h a : N) :
  hex_value_upper h = Some a -> a < 16 /\ hex_digit a = h.
Proof.
  unfold hex_value_upper, hex_digit.
  destruct (N.leb_spec 48 h); destruct (N.leb_spec h 57); cbn [andb].
  1: intros [= <-]; destruct (N.ltb_spec (h - 48) 10); lia.
  all: destruct (N.leb_spec 65 h); destruct (N.leb_spec h 70); cbn [andb];
    try discriminate;
    intros [= <-]; destruct (N.ltb_spec (h - 55) 10); lia.
Qed.

Lemma nibbles (a b : N) :
  a < 16 -> b < 16 ->
  N.shiftr (16 * a + b) 4 = a /\ N.land (16 * a + b) 15 = b.
Proof.
  intros Ha Hb. rewrite N.shiftr_div_pow2.
  change 15 with (N.ones 4). rewrite N.land_ones.
  change (2 ^ 4) with 16. euclid (16 * a + b) 16. lia.
Qed.

Lemma quote_from_bytes_cons (b : N) (bs : list N) :
  quote_from_bytes (b :: bs) = quote_byte b ++ quote_from_bytes bs.
Proof. reflexivity. Qed.

(** A text the reader accepts is the quoting of the bytes it yields. *)
Lemma percent_decode_unique (enc : pystr) (bs : list N) :
  percent_decode enc = Some bs -> quote_from_bytes bs = enc.
Proof.
  remember (length enc) as n eqn:Hn. revert enc bs Hn.
  induction n as [n IH] using lt_wf_ind. intros enc bs Hn.
  destruct enc as [|c r]; [now intros [= <-]|].
  unfold percent_decode; fold percent_decode.
  destruct (N.eqb_spec c 37) as [->|Hc].
  - destruct r as [|h [|l r']]; try discriminate.
    destruct (hex_value_upper h) as [a|] eqn:Eh; [|discriminate].
    destruct (hex_value_upper l) as [b|] eqn:El; [|discriminate].
    apply hex_value_upper_inv in Eh as [Ha Eh], El as [Hb El].
    destruct (nibbles a b Ha Hb) as [N1 N2].
    remember (16 * a + b) as byte eqn:Hbyte. cbv zeta.
    destruct (kept byte) eqn:S; [discriminate|].
    destruct (percent_decode r') as [bs'|] eqn:E; [|discriminate].
    intros H. assert (Hbs : bs = byte :: bs') by (unfold option_map in H; symmetry; now injection H).
    rewrite Hbs, quote_from_bytes_cons.
    unfold quote_byte. rewrite <- kept_quote_safe, S, N1, N2, Eh, El.
    rewrite (IH (length r') ltac:(subst n; simpl; lia) r' bs' eq_refl E).
    reflexivity.
  - destruct (kept c) eqn:S; [|discriminate].
    destruct (percent_decode r) as [bs'|] eqn:E; [|discriminate].
    intros H. assert (Hbs : bs = c :: bs') by (unfold option_map in H; symmetry; now injection H).
    rewrite Hbs, quote_from_bytes_cons.
    unfold quote_byte. rewrite <- kept_quote_safe, S.
    rewrite (IH (length r) ltac:(subst n; simpl; lia) r bs' eq_refl E).
    reflexivity.
Qed.

Ltac tests :=
  repeat match goal with
  | H : _ && _ = true |- _ => apply andb_true_iff in H; destruct H
  | H : negb _ = true |- _ => apply negb_true_iff in H
  | H : is_continuation _ = true |- _ => unfold is_continuation in H
  | H : (_ <? _) = true |- _ => apply N.ltb_lt in H
  | H : (_ <? _) = false |- _ => apply N.ltb_ge in H
  | H : (_ <=? _) = true |- _ => apply N.leb_le in H
  | H : (_ <=? _) = false |- _ => apply N.leb_gt in H
  end.

Lemma utf8_char_1 (c : char) : c < 128 -> utf8_char c = Some [c].
Proof.
  intros H. rewrite utf8_char_arith by lia.
  destruct (N.ltb_spec c 128); [reflexivity|lia].
Qed.

Lemma utf8_char_2 (c b1 b2 : N) :
  c = (b1 - 192) * 64 + (b2 - 128) ->
  192 <= b1 -> b1 < 224 -> 128 <= b2 -> b2 < 192 -> 128 <= c ->
  utf8_char c = Some [b1; b2].
Proof.
  intros Hc ? ? ? ? ?. rewrite utf8_char_arith by lia.
  destruct (N.ltb_spec c 128); [lia|].
  destruct (N.ltb_spec c 2048); [|lia].
  assert (E1 : 192 + c / 64 = b1) by (euclid c 64; lia).
  assert (E2 : 128 + c mod 64 = b2) by (euclid c 64; lia).
  now rewrite E1, E2.
Qed.

Lemma utf8_char_3 (c b1 b2 b3 : N) :
  c = (b1 - 224) * 4096 + (b2 - 128) * 64 + (b3 - 128) ->
  224 <= b1 -> b1 < 240 -> 128 <= b2 -> b2 < 192 -> 128 <= b3 -> b3 < 192 ->
  2048 <= c -> is_surrogate c = false ->
  utf8_char c = Some [b1; b2; b3].
Proof.
  intros Hc ? ? ? ? ? ? ? Hs. rewrite utf8_char_arith by lia. rewrite Hs.
  destruct (N.ltb_spec c 128); [lia|].
  destruct (N.ltb_spec c 2048); [lia|].
  destruct (N.ltb_spec c 65536); [|lia].
  assert (E1 : 224 + c / 64 / 64 = b1)
    by (euclid c 64; euclid q 64; lia).
  assert (E2 : 128 + (c / 64) mod 64 = b2)
    by (euclid c 64; euclid q 64; lia).
  assert (E3 : 128 + c mod 64 = b3) by (euclid c 64; lia).
  now rewrite E1, E2, E3.
Qed.

Lemma utf8_char_4 (c b1 b2 b3 b4 : N) :
  c = (b1 - 240) * 262144 + (b2 - 128) * 4096 + (b3 - 128) * 64 +
      (b4 - 128) ->
  240 <= b1 -> b1 < 248 -> 128 <= b2 -> b2 < 192 -> 128 <= b3 -> b3 < 192 ->
  128 <= b4 -> b4 < 192 -> 65536 <= c -> c < 0x110000 ->
  utf8_char c = Some [b1; b2; b3; b4].
Proof.
  intros Hc ? ? ? ? ? ? ? ? ? ?. rewrite utf8_char_arith by lia.
  assert (Hs : is_surrogate c = false).
  { unfold is_surrogate. destruct (N.leb_spec 55296 c);
      destruct (N.leb_spec c 57343); trivial; lia. }
  rewrite Hs.
  destruct (N.ltb_spec c 128); [lia|].
  destruct (N.ltb_spec c 2048); [lia|].
  destruct (N.ltb_spec c 65536); [lia|].
  assert (E1 : 240 + c / 64 / 64 / 64 = b1)
    by (euclid c 64; euclid q 64; euclid q0 64; lia).
  assert (E2 : 128 + (c / 64 / 64) mod 64 = b2)
    by (euclid c 64; euclid q 64; euclid q0 64; lia).
  assert (E3 : 128 + (c / 64) mod 64 = b3)
    by (euclid c 64; euclid q 64; lia).
  assert (E4 : 128 + c mod 64 = b4) by (euclid c 64; lia).
  now rewrite E1, E2, E3, E4.
Qed.

(** What the reader takes off the front of a byte string is the
    encoding of the code point it yields. *)
Lemma utf8_decode_step (bs : list N) (s : pystr) :
  utf8_decode bs = Some s ->
  (bs = [] /\ s = []) \/
  exists c bytes r s',
    bs = bytes ++ r /\ (length r < length bs)%nat /\
    utf8_char c = Some bytes /\ c < 0x110000 /\
    utf8_decode r = Some s' /\ s = c :: s'.
Proof.
  destruct bs as [|b1 r]; [intros [= <-]; now left|].
  intros H. right. unfold utf8_decode in H; fold utf8_decode in H.
  destruct (b1 <? 128) eqn:T1.
  { destruct (utf8_decode r) as [s'|] eqn:E; [|discriminate].
    tests. exists b1, [b1], r, s'.
    repeat apply conj;
      [reflexivity|simpl; lia|now apply utf8_char_1|lia|exact E|
       unfold option_map in H; symmetry; now injection H]. }
  destruct ((192 <=? b1) && (b1 <? 224)) eqn:T2.
  { destruct r as [|b2 r']; [discriminate|]. cbv zeta in H.
    remember ((b1 - 192) * 64 + (b2 - 128)) as c eqn:Hc.
    destruct (is_continuation b2 && (128 <=? c)) eqn:T3; [|discriminate].
    destruct (utf8_decode r') as [s'|] eqn:E; [|discriminate].
    tests. exists c, [b1; b2], r', s'.
    repeat apply conj;
      [reflexivity|simpl; lia|now apply (utf8_char_2 c b1 b2)|lia|exact E|
       unfold option_map in H; symmetry; now injection H]. }
  destruct ((224 <=? b1) && (b1 <? 240)) eqn:T3.
  { destruct r as [|b2 [|b3 r']]; try discriminate. cbv zeta in H.
    remember ((b1 - 224) * 4096 + (b2 - 128) * 64 + (b3 - 128)) as c eqn:Hc.
    destruct (is_continuation b2 && is_continuation b3 && (2048 <=? c) &&
              negb (is_surrogate c)) eqn:T4; [|discriminate].
    destruct (utf8_decode r') as [s'|] eqn:E; [|discriminate].
    tests. exists c, [b1; b2; b3], r', s'.
    repeat apply conj;
      [reflexivity|simpl; lia|now apply (utf8_char_3 c b1 b2 b3)|lia|exact E|
       unfold option_map in H; symmetry; now injection H]. }
  destruct ((240 <=? b1) && (b1 <? 248)) eqn:T4; [|discriminate].
  destruct r as [|b2 [|b3 [|b4 r']]]; try discriminate. cbv zeta in H.
  remember ((b1 - 240) * 262144 + (b2 - 128) * 4096 + (b3 - 128) * 64 +
            (b4 - 128)) as c eqn:Hc.
  destruct (is_continuation b2 && is_continuation b3 && is_continuation b4 &&
            (65536 <=? c) && (c <? 1114112)) eqn:T5; [|discriminate].
  destruct (utf8_decode r') as [s'|] eqn:E; [|discriminate].
  tests. exists c, [b1; b2; b3; b4], r', s'.
  repeat apply conj;
    [reflexivity|simpl; lia|now apply (utf8_char_4 c b1 b2 b3 b4)|lia|
     exact E|unfold option_map in H; symmetry; now injection H].
Qed.

(** Bytes the reader accepts are the encoding of the code points it
    yields, and these are code points without surrogates. *)
Lemma utf8_decode_unique (bs : list N) (s : pystr) :
  utf8_decode bs = Some s ->
  utf8_encode s = Some bs /\ forallb (fun c => c <? 0x110000) s = true.
Proof.
  remember (length bs) as n eqn:Hn. revert bs s Hn.
  induction n as [n IH] using lt_wf_ind. intros bs s Hn H.
  destruct (utf8_decode_step bs s H)
    as [[-> ->]|(c & bytes & r & s' & -> & Hl & Hc & Hv & E & ->)];
    [now split|].
  destruct (IH (length r) ltac:(lia) r s' eq_refl E) as [IH1 IH2].
  cbn [utf8_encode forallb]. rewrite Hc, IH1, IH2.
  destruct (N.ltb_spec c 1114112); [now split|lia].
Qed.

(** The reader and [quote] agree: a text reads back as a string
    exactly when it is what [quote] gives for the string, which is then
    made of code points without surrogates. *)
Lemma percent_decoded_iff (s enc : pystr) :
  percent_decoded enc = Some s <->
  quote (VStr s) = inr enc /\ forallb (fun c => c <? 0x110000) s = true.
Proof.
  split.
  - unfold percent_decoded.
    destruct (percent_decode enc) as [bs|] eqn:E; [|discriminate].
    intros H. apply percent_decode_unique in E.
    apply utf8_decode_unique in H as [H Hv]. split; [|exact Hv].
    destruct s as [|c s].
    + simpl in H. injection H as <-. now subst enc.
    + unfold quote. rewrite H. now subst enc.
  - intros [Hq Hv]. now apply percent_decoded_quote.
Qed.

(** *** The requests *)

Section Upstream.

Variable requests_get : pystr -> result response.
Variable json_loads : pystr -> result value.

Local Abbreviation search_songs := (SaavnApiService.search_songs requests_get json_loads).
Local Abbreviation get_streaming_url := (SaavnApiService.get_streaming_url requests_get json_loads).
Local Abbreviation details_attempt := (SaavnApiService.details_attempt requests_get json_loads).

(** C8: the requests.  [search_songs] sends one request, to the base
    endpoint with [__call=search.getResults], [q] set to the text
    [quote] returns for the query and the four fixed parameters (and
    none when [quote] raises).  [get_streaming_url] first asks for the
    details, with [__call=song.getDetails] and [pids] set to the track
    id as it is, and then, when the first step has yielded a reference
    [quote] accepts, for the token, with [__call=song.generateAuthToken],
    [url] set to the text [quote] returns for the reference and
    [bitrate=320]; the four fixed parameters end every URL, and the
    reference is the value under [encrypted_media_url] of the details.
    The text [quote] returns is the percent-encoding of its argument:
    [quote] returns a text for a string only; for a string of code
    points, the text read back by [percent_decoded], which knows
    nothing of [quote], is the string; and [percent_decoded] reads no
    other text back as that string. *)
Theorem request_urls :
  (forall query,
     snd (run (search_songs query)) =
     match quote (VStr query) with
     | inr enc =>
         [lit "https://www.jiosaavn.com/api.php?__call=search.getResults&q=" ++
          enc ++ lit "&_format=json&_marker=0&api_version=4&ctx=web6dot0"]
     | inl _ => []
     end) /\
  (forall song_id,
     snd (run (get_streaming_url song_id)) =
     (lit "https://www.jiosaavn.com/api.php?__call=song.getDetails&pids=" ++
      song_id ++ lit "&_format=json&_marker=0&api_version=4&ctx=web6dot0") ::
     match fst (run (details_attempt song_id)) with
     | inr encrypted_url =>
         match quote encrypted_url with
         | inr enc =>
             [lit "https://www.jiosaavn.com/api.php?__call=song.generateAuthToken&url=" ++
              enc ++
              lit "&bitrate=320&_format=json&_marker=0&api_version=4&ctx=web6dot0"]
         | inl _ => []
         end
     | inl _ => []
     end) /\
  (forall song_id encrypted_url,
     fst (run (details_attempt song_id)) = inr encrypted_url ->
     exists r entries song rest mi,
       requests_get (details_url song_id) = inr r /\
       json_loads (text r) = inr (VDict entries) /\
       dict_lookup (lit "songs") entries = Some (VList (VDict song :: rest)) /\
       dict_lookup (lit "more_info") song = Some (VDict mi) /\
       dict_lookup (lit "encrypted_media_url") mi = Some encrypted_url) /\
  (forall v enc, quote v = inr enc -> exists s, v = VStr s) /\
  (forall s enc,
     code_points s = true ->
     quote (VStr s) = inr enc ->
     percent_decoded enc = Some s) /\
  (forall s enc,
     percent_decoded enc = Some s ->
     quote (VStr s) = inr enc).
Proof.
  destruct (requested_urls requests_get json_loads) as (H1 & H2 & H3).
  repeat apply conj.
  - exact H1.
  - exact H2.
  - exact H3.
  - intros v enc H. destruct v; try discriminate H. eauto.
  - intros s enc Hs Hq. now apply percent_decoded_quote.
  - intros s enc H. now apply percent_decoded_iff in H.
Qed.

End Upstream.

End EncodingFacts.

(** ** The requests and the outcomes on concrete exchanges *)

Module EncodingScenarios.
Import PyStr Py SaavnApiService ClientAux Percent ClientFacts EncodingFacts
  Scenarios.

Lemma request_urls_witness :
  snd (run (search_songs (always 200 search_body) PyJson.loads
              (lit "tum hi ho"))) =
    [lit "https://www.jiosaavn.com/api.php?__call=search.getResults&q=tum%20hi%20ho&_format=json&_marker=0&api_version=4&ctx=web6dot0"] /\
  percent_decoded (lit "tum%20hi%20ho") = Some (lit "tum hi ho") /\
  (exists r entries song rest mi,
     upstream (details_url track) = inr r /\
     PyJson.loads (text r) = inr (VDict entries) /\
     dict_lookup (lit "songs") entries = Some (VList (VDict song :: rest)) /\
     dict_lookup (lit "more_info") song = Some (VDict mi) /\
     dict_lookup (lit "encrypted_media_url") mi = Some (VStr (lit "E1"))).
Proof.
  split; [|split].
  - rewrite (proj1 (request_urls (always 200 search_body) PyJson.loads)
               (lit "tum hi ho")).
    by_computation.
  - destruct (request_urls upstream PyJson.loads)
      as (_ & _ & _ & _ & H & _).
    apply (H (lit "tum hi ho") (lit "tum%20hi%20ho")); by_computation.
  - destruct (request_urls upstream PyJson.loads) as (_ & _ & H & _).
    apply (H track (VStr (lit "E1"))). by_computation.
Defined.

(** C10: the code at details whose body carries a reference [quote]
    does not accept.  Whatever the status codes, a reference that is
    the number 5 ends the call with [TypeError], and a reference that
    is a string, of the one code point U+D800, ends it with
    [UnicodeEncodeError]: [quote] stands outside both [try] blocks.
    The details are asked for, the token is not, and the outcome is
    neither the stream URL nor one of the two reported failures. *)
Theorem get_streaming_url_other_outcomes :
  (forall st : pystr -> Z,
     run (get_streaming_url (with_status st upstream_numeric) PyJson.loads
            track) =
     (inl TypeError, [details_url track])) /\
  PyJson.loads surrogate_body =
    inr (VDict [(lit "songs",
                 VList [VDict [(lit "more_info",
                                VDict [(lit "encrypted_media_url",
                                        VStr [0xD800%N])])]])]) /\
  (forall st : pystr -> Z,
     run (get_streaming_url (with_status st upstream_surrogate) PyJson.loads
            track) =
     (inl UnicodeEncodeError, [details_url track])) /\
  TypeError <> DetailsNotFound /\
  TypeError <> TokenExpiredOrInvalid /\
  UnicodeEncodeError <> DetailsNotFound /\
  UnicodeEncodeError <> TokenExpiredOrInvalid.
Proof.
  repeat apply conj; try discriminate.
  - intros st.
    rewrite (proj1 (get_streaming_url_ignores_status upstream_numeric
                      PyJson.loads) st track).
    by_computation.
  - by_computation.
  - intros st.
    rewrite (proj1 (get_streaming_url_ignores_status upstream_surrogate
                      PyJson.loads) st track).
    by_computation.
Qed.

End EncodingScenarios.
